(** * frequent_apriori: the Apriori miner and the rule deriver

    A shallow embedding of [frequent_apriori/Abstracts.py] and
    [frequent_apriori/Memory.py].

    Modelling conventions.
    - A Python [frozenset] of item labels is a [gset string]; a set of
      transaction ids is a [gset nat].  Python leaves the iteration order of a
      set unspecified; wherever the source iterates over a set we iterate over
      [elements], one fixed enumeration without repetitions.
    - The inverted index (a [dict]) is a [gmap string (gset nat)].
    - The [float] values the program computes (quotients of counts) are
      kept as exact rationals ([Q]); the rounding of binary64 is not
      modelled.  A division whose divisor is zero raises
      [ZeroDivisionError], as Python's [/] does on both [int] and [float].
    - The itemset lists the miner returns on two different stores are
      compared up to their order ([same_outcome]): the order among itemsets
      of equal support follows the iteration order of sets.
    - The threshold [minimum_support] comes from the caller and is a
      [pyfloat]: a finite value, an infinity or a NaN.  [int] raises on an
      infinity and on a NaN, and every comparison with a NaN is false.
    - Exceptions are explicit: every fallible function returns a [result].
      The [while] loop of the miner is run with fuel, and [OutOfFuel] is shown
      never to be produced by the top-level function. *)

From Stdlib Require Import QArith.
From stdpp Require Import gmap strings list fin_maps sorting.

#[local] Set Warnings "-clear-no-such-hyp".

Local Open Scope Z_scope.
Local Open Scope nat_scope.

(** ** Exceptions *)

Inductive exn : Set :=
| ZeroDivisionError
| TypeError
| KeyError
| ValueError
| OverflowError.

Inductive result (A : Type) : Type :=
| Ret (a : A)
| Raise (e : exn)
| OutOfFuel.

Arguments Ret {A} a.
Arguments Raise {A} e.
Arguments OutOfFuel {A}.

#[global] Instance result_bind : MBind result := λ A B k m,
  match m with
  | Ret a => k a
  | Raise e => Raise e
  | OutOfFuel => OutOfFuel
  end.

#[global] Instance result_ret : MRet result := λ A a, Ret a.

(** [for x in l: ... append ...] where the body may raise. *)
Fixpoint mapM {A B : Type} (f : A → result B) (l : list A) : result (list B) :=
  match l with
  | [] => Ret []
  | x :: t => y ← f x; ys ← mapM f t; Ret (y :: ys)
  end.

(** ** itertools.combinations *)

(** [combinations iterable r]: the [r]-length subsequences of the input, in
    lexicographic order of positions. *)
Fixpoint combinations {A : Type} (l : list A) (r : nat) {struct l} : list (list A) :=
  match r, l with
  | O, _ => [[]]
  | S _, [] => []
  | S r', x :: t => map (cons x) (combinations t r') ++ combinations t r
  end.

(** ** Value objects *)

Record FrequentSet : Type := mkFrequentSet {
  items : gset string;
  support : nat;
  relative_support : Q
}.

Record AssociationRule : Type := mkAssociationRule {
  condition : gset string;
  consequence : gset string;
  confidence : Q;
  lift : Q
}.

(** [FrequentSet.__lt__] *)
Definition FrequentSet_lt (self other : FrequentSet) : bool :=
  bool_decide (support self < support other).

(** [AssociationRule.__lt__] *)
Definition Qltb (x y : Q) : bool := negb (Qle_bool y x).

Definition AssociationRule_lt (self other : AssociationRule) : bool :=
  Qltb (confidence self) (confidence other) && Qltb (lift self) (lift other).

(** ** The transaction store *)

Record Store : Type := mkStore {
  _transaction_index : gmap string (gset nat);
  _transaction_count : nat
}.

(** [FrequentPatterns._index_transactions] (Memory.py): the inner loop over
    the items of one transaction, then the loop over the transactions with the
    running row number. *)
Definition index_item (transaction_row : nat) (transaction_index : gmap string (gset nat))
    (item : string) : gmap string (gset nat) :=
  <[item := {[transaction_row]} ∪ default ∅ (transaction_index !! item)]> transaction_index.

Fixpoint index_rows (transaction_row : nat) (transaction_index : gmap string (gset nat))
    (transactions : list (list string)) : gmap string (gset nat) :=
  match transactions with
  | [] => transaction_index
  | transaction :: rest =>
      index_rows (S transaction_row)
        (foldl (index_item (S transaction_row)) transaction_index transaction) rest
  end.

Definition _index_transactions (transactions : list (list string)) : gmap string (gset nat) :=
  index_rows 0 ∅ transactions.

(** [FrequentPatternsAbstract.__init__]: [transactions] defaults to [None];
    [len(transactions)] is evaluated first. *)
Definition py_len {A : Type} (o : option (list A)) : result nat :=
  match o with
  | None => Raise TypeError
  | Some l => Ret (length l)
  end.

Definition __init__ (transactions : option (list (list string))) : result Store :=
  count ← py_len transactions;
  match transactions with
  | Some txs => Ret (mkStore (_index_transactions txs) count)
  | None => Ret (mkStore ∅ count)
  end.

(** [_get_all_items] and [_item_transactions] (Memory.py).  The keys come in
    some order; the only caller collects them into a set. *)
Definition _get_all_items (self : Store) : list string :=
  elements (dom (_transaction_index self)).

Definition _item_transactions (self : Store) (item : string) : gset nat :=
  default ∅ (_transaction_index self !! item).

(** ** The support query *)

(** [functools.reduce(f, seq)] without initial value: [TypeError] on an empty
    sequence. *)
Definition reduce {A : Type} (f : A → A → A) (l : list A) : result A :=
  match l with
  | [] => Raise TypeError
  | x :: t => Ret (foldl f x t)
  end.

(** [float(a) / b] *)
Definition py_div (a b : Q) : result Q :=
  if Qeq_bool b 0 then Raise ZeroDivisionError else Ret (a / b)%Q.

Definition Qnat (n : nat) : Q := inject_Z (Z.of_nat n).

Definition __support_value (self : Store) (candidate : gset string) : result (nat * Q) :=
  transactions ← reduce (∩) (map (_item_transactions self) (elements candidate));
  let support := size transactions in
  relative_support ← py_div (Qnat support) (Qnat (_transaction_count self));
  Ret (support, relative_support).

(** ** sorted *)

(** [sorted(l)] driven by [__lt__] only, as a stable insertion sort: each
    element in turn is moved left past the elements of the sorted prefix that
    it is [<] than.  The prefix is kept last-element-first.  On a strict weak
    order this yields the one stable sorted arrangement. *)
Fixpoint insert_from_right {A : Type} (lt : A → A → bool) (x : A) (prefix_rev : list A) : list A :=
  match prefix_rev with
  | [] => [x]
  | y :: rest => if lt x y then y :: insert_from_right lt x rest else x :: prefix_rev
  end.

Definition sorted {A : Type} (lt : A → A → bool) (l : list A) : list A :=
  reverse (foldl (λ prefix_rev x, insert_from_right lt x prefix_rev) [] l).

(** [sorted(l, reverse=True)]: reverse, sort, reverse (this keeps the sort
    stable). *)
Definition sorted_reverse {A : Type} (lt : A → A → bool) (l : list A) : list A :=
  reverse (sorted lt (reverse l)).

(** [enumerate]: an object together with its position; the position stands
    for the identity of the object. *)
Definition enumerate {A : Type} (l : list A) : list (nat * A) :=
  zip (seq 0 (length l)) l.

(** ** get_frequent_item_sets *)

(** A [float] handed in by the caller. *)
Inductive pyfloat : Set :=
| Finite (q : Q)
| PosInf
| NegInf
| NaN.

Coercion Finite : Q >-> pyfloat.
Bind Scope Q_scope with pyfloat.

(** Truncation toward zero of a finite value. *)
Definition truncate (x : Q) : Z := Z.quot (Qnum x) (Zpos (Qden x)).

(** [int(x)]: [ValueError] on a NaN, [OverflowError] on an infinity. *)
Definition py_int (x : pyfloat) : result Z :=
  match x with
  | Finite q => Ret (truncate q)
  | NaN => Raise ValueError
  | PosInf | NegInf => Raise OverflowError
  end.

(** Lines 162-169: the threshold actually used.  [0.0 <= x <= 1.0] is false
    on an infinity and on a NaN, as every comparison with a NaN is. *)
Definition clamp_minimum_support (self : Store) (minimum_support : pyfloat)
    (is_relative_support : bool) : result Q :=
  if is_relative_support then
    match minimum_support with
    | Finite minimum_support =>
        if Qle_bool 0 minimum_support && Qle_bool minimum_support 1
        then Ret minimum_support else Ret 1%Q
    | PosInf | NegInf | NaN => Ret 1%Q
    end
  else
    minimum_support ← py_int minimum_support;
    if ((minimum_support <? 0) || (Z.of_nat (_transaction_count self) <? minimum_support))%Z
    then Ret (Qnat (_transaction_count self))
    else Ret (inject_Z minimum_support).

(** Lines 177-184: the placeholder level used to seed the search. *)
Definition initial_set (self : Store) (is_relative_support : bool) : list FrequentSet :=
  map (λ key, mkFrequentSet {[key]} 0 (if is_relative_support then 1 else 0)%Q)
      (_get_all_items self).

(** Lines 190-194 and 201-204. *)
Definition unique_items (sets : list FrequentSet) : gset string :=
  ⋃ (map items sets).

Definition previous_frequent_sets (sets : list FrequentSet) : gset (gset string) :=
  list_to_set (map items sets).

(** Lines 206-209. *)
Definition possible_candidate_sets (sets : list FrequentSet) (iteration : nat)
    : list (gset string) :=
  map list_to_set (combinations (elements (unique_items sets)) (iteration + 1)).

(** Lines 219-223: the inner loop with its [break]. *)
Definition discard_candidate (previous : gset (gset string)) (iteration : nat)
    (candidate : gset string) : bool :=
  existsb (λ item_subset, bool_decide ((list_to_set item_subset : gset string) ∉ previous))
          (combinations (elements candidate) iteration).

(** Lines 211-230. *)
Definition candidate_sets (sets : list FrequentSet) (iteration : nat) : list (gset string) :=
  if bool_decide (0 < iteration) then
    filter (λ candidate,
              discard_candidate (previous_frequent_sets sets) iteration candidate = false)
           (possible_candidate_sets sets iteration)
  else possible_candidate_sets sets iteration.

(** Lines 236-239. *)
Definition not_minimum_support (minimum_support : Q) (is_relative_support : bool)
    (support : nat) (relative_support : Q) : bool :=
  if is_relative_support then Qltb relative_support minimum_support
  else Qltb (Qnat support) minimum_support.

(** Lines 232-250. *)
Fixpoint current_iteration_frequent_sets (self : Store) (minimum_support : Q)
    (is_relative_support : bool) (candidates : list (gset string))
    : result (list FrequentSet) :=
  match candidates with
  | [] => Ret []
  | candidate :: rest =>
      '(support, relative_support) ← __support_value self candidate;
      later ← current_iteration_frequent_sets self minimum_support is_relative_support rest;
      if not_minimum_support minimum_support is_relative_support support relative_support
      then Ret later
      else Ret (mkFrequentSet candidate support relative_support :: later)
  end.

(** A [dict] keyed by the iteration number, in insertion order. *)
Definition dict_get {V : Type} (d : list (nat * V)) (k : nat) : result V :=
  match filter (λ kv, kv.1 = k) d with
  | (_, v) :: _ => Ret v
  | [] => Raise KeyError
  end.

Definition dict_del {V : Type} (d : list (nat * V)) (k : nat) : result (list (nat * V)) :=
  _ ← dict_get d k;
  Ret (filter (λ kv, kv.1 ≠ k) d).

(** Lines 189-256: the [while] loop. *)
Fixpoint while_next_iteration (fuel : nat) (self : Store) (minimum_support : Q)
    (is_relative_support : bool) (iteration : nat)
    (iterations_frequent_sets : list (nat * list FrequentSet))
    : result (list (nat * list FrequentSet)) :=
  match fuel with
  | O => OutOfFuel
  | S fuel =>
      sets ← dict_get iterations_frequent_sets iteration;
      current ← current_iteration_frequent_sets self minimum_support is_relative_support
                  (candidate_sets sets iteration);
      if bool_decide (0 < length current) then
        while_next_iteration fuel self minimum_support is_relative_support (iteration + 1)
          (iterations_frequent_sets ++ [(iteration + 1, current)])
      else Ret iterations_frequent_sets
  end.

(** Lines 275-277: one turn of the pruning loop.  [pruned_sets] holds objects
    (compared by identity), here their positions in [joined_frequent_sets]. *)
Definition prune_pair (pruned_sets : gset nat) (pair : list (nat * FrequentSet)) : gset nat :=
  match pair with
  | [(id1, set1); (_, set2)] =>
      if bool_decide (id1 ∉ pruned_sets) && bool_decide (items set1 ⊆ items set2)
      then {[id1]} ∪ pruned_sets
      else pruned_sets
  | _ => pruned_sets
  end.

(** Lines 265-283. *)
Definition joined_frequent_sets (iterations_frequent_sets : list (nat * list FrequentSet))
    : list FrequentSet :=
  mjoin (map snd iterations_frequent_sets).

Definition pruned_sets (prune : bool) (joined : list FrequentSet) : gset nat :=
  if prune then foldl prune_pair ∅ (combinations (enumerate joined) 2) else ∅.

Definition cleaned_frequent_sets (prune : bool) (joined : list FrequentSet) : list FrequentSet :=
  map snd (filter (λ new_item, new_item.1 ∉ pruned_sets prune joined) (enumerate joined)).

Definition get_frequent_item_sets_fuel (fuel : nat) (self : Store) (minimum_support : pyfloat)
    (is_relative_support : bool) (prune : bool) : result (list FrequentSet) :=
  minimum_support ← clamp_minimum_support self minimum_support is_relative_support;
  iterations_frequent_sets ←
    while_next_iteration fuel self minimum_support is_relative_support 0
      [(0, initial_set self is_relative_support)];
  iterations_frequent_sets ← dict_del iterations_frequent_sets 0;
  Ret (sorted_reverse FrequentSet_lt
         (cleaned_frequent_sets prune (joined_frequent_sets iterations_frequent_sets))).

(** The loop runs at most once per item and once more; this much fuel is
    never used up ([get_frequent_item_sets_terminates]). *)
Definition get_frequent_item_sets (self : Store) (minimum_support : pyfloat)
    (is_relative_support : bool) (prune : bool) : result (list FrequentSet) :=
  get_frequent_item_sets_fuel (2 + length (_get_all_items self)) self
    minimum_support is_relative_support prune.

(** ** association_rules *)

(** Lines 311-312. *)
Definition maximum_cardinality (frequent_item_sets : list FrequentSet) : nat :=
  if bool_decide (0 < length frequent_item_sets)
  then foldr Nat.max 0 (map (λ item_set, size (items item_set)) frequent_item_sets)
  else 0.

(** Lines 318-326: every [set_attempt], in the order the three nested loops
    reach them. *)
Definition set_attempts (frequent_item_sets : list FrequentSet) : list (gset string) :=
  item_set ← frequent_item_sets;
  subset_index ← seq 1 (maximum_cardinality frequent_item_sets - 1);
  item_subset ← combinations (elements (items item_set)) subset_index;
  [list_to_set item_subset].

(** Lines 328-338: the body run for one [set_attempt]. *)
Definition store_subset (self : Store) (state : gset (gset string) * list FrequentSet)
    (set_attempt : gset string) : result (gset (gset string) * list FrequentSet) :=
  let '(global_item_subsets, global_item_subsets_support) := state in
  if bool_decide (set_attempt ∉ global_item_subsets) then
    '(support, relative_support) ← __support_value self set_attempt;
    Ret ({[set_attempt]} ∪ global_item_subsets,
         global_item_subsets_support ++ [mkFrequentSet set_attempt support relative_support])
  else Ret state.

Fixpoint foldM {A B : Type} (f : B → A → result B) (b : B) (l : list A) : result B :=
  match l with
  | [] => Ret b
  | x :: t => b' ← f b x; foldM f b' t
  end.

(** Lines 314-338. *)
Definition global_item_subsets_support (self : Store) (frequent_item_sets : list FrequentSet)
    : result (list FrequentSet) :=
  if bool_decide (1 < maximum_cardinality frequent_item_sets) then
    state ← foldM (store_subset self) (∅, []) (set_attempts frequent_item_sets);
    Ret state.2
  else Ret [].

(** Lines 348-358: the pairs of distinct positions, first index outermost. *)
Definition global_pairs (pool : list FrequentSet) : list (FrequentSet * FrequentSet) :=
  a ← enumerate pool;
  b ← enumerate pool;
  if bool_decide (a.1 ≠ b.1) then [(a.2, b.2)] else [].

(** Lines 360-392: the body run for one pair; [None] when no rule is added. *)
Definition rule_of_pair (self : Store) (minimum_confidence minimum_lift : Q)
    (pair : FrequentSet * FrequentSet) : result (option AssociationRule) :=
  let '(global_subset_a, global_subset_b) := pair in
  let subset_a := items global_subset_a in
  let support_a := support global_subset_a in
  let subset_b := items global_subset_b in
  if bool_decide (size (subset_a ∩ subset_b) = 0) then
    let a_union_b_set := subset_a ∪ subset_b in
    '(support_a_union_b, _) ← __support_value self a_union_b_set;
    rule_support ← py_div (Qnat support_a_union_b) (Qnat support_a);
    lift ← py_div (Qnat support_a_union_b)
                  (Qnat support_a * relative_support global_subset_b)%Q;
    if Qle_bool minimum_confidence rule_support && Qle_bool minimum_lift lift
    then Ret (Some (mkAssociationRule subset_a subset_b rule_support lift))
    else Ret None
  else Ret None.

(** Lines 395-402: the two sorts.  The first one sorts the rule positions by
    the confidence stored for them, which is the confidence of the rule. *)
Definition confidence_lt (r1 r2 : AssociationRule) : bool :=
  Qltb (confidence r1) (confidence r2).

Definition association_rules (self : Store) (frequent_item_sets : list FrequentSet)
    (minimum_confidence minimum_lift : Q) : result (list AssociationRule) :=
  pool ← global_item_subsets_support self frequent_item_sets;
  found ← mapM (rule_of_pair self minimum_confidence minimum_lift) (global_pairs pool);
  let association_rules := omap id found in
  let confidence_sorted := sorted_reverse confidence_lt association_rules in
  Ret (sorted_reverse AssociationRule_lt confidence_sorted).

(** * Vocabulary of the statements *)

(** The transactions that hold every item of a candidate. *)
Definition covers (self : Store) (candidate : gset string) (transaction : nat) : Prop :=
  ∀ item, item ∈ candidate → transaction ∈ _item_transactions self item.

(** ** The level-wise search *)

Section levels.
Variables (self : Store) (minimum_support : Q) (is_relative_support : bool).
Implicit Types (sets current : list FrequentSet) (candidate : gset string).
Implicit Types (d : list (nat * list FrequentSet)).

(** A candidate meets the threshold: its support query returns and the
    test of lines 236-241 lets it through. *)
Definition meets_minimum_support candidate : Prop :=
  ∃ support relative_support,
    __support_value self candidate = Ret (support, relative_support) ∧
    not_minimum_support minimum_support is_relative_support support relative_support = false.

(** A [FrequentSet] object as the loop builds it. *)
Definition is_frequent (fs : FrequentSet) : Prop :=
  __support_value self (items fs) = Ret (support fs, relative_support fs) ∧
  not_minimum_support minimum_support is_relative_support
    (support fs) (relative_support fs) = false.

(** The dictionary after [k] successful turns: keys [0..k] in order, the
    seed at key 0, and each later level computed from the one before. *)
Inductive levels : nat → list (nat * list FrequentSet) → Prop :=
| levels_seed : levels 0 [(0, initial_set self is_relative_support)]
| levels_next k d sets current :
    levels k d →
    dict_get d k = Ret sets →
    current_iteration_frequent_sets self minimum_support is_relative_support
      (candidate_sets sets k) = Ret current →
    current ≠ [] →
    levels (S k) (d ++ [(S k, current)]).

(** The items a level may use, and what every retained level looks like. *)
Definition level_ok (k : nat) sets : Prop :=
  Forall (λ fs, is_frequent fs ∧ size (items fs) = k ∧
                items fs ⊆ dom (_transaction_index self)) sets ∧
  NoDup (map items sets).

End levels.

(** What is left once key 0 is deleted, joined. *)
Definition retained (d : list (nat * list FrequentSet)) : list FrequentSet :=
  joined_frequent_sets (filter (λ kv, kv.1 ≠ 0) d).

(** ** The fragment pool *)

(** The loop invariant of lines 318-338. *)
Definition pool_ok (self : Store) (state : gset (gset string) * list FrequentSet) : Prop :=
  (∀ T, T ∈ state.1 ↔ T ∈ map items state.2) ∧
  NoDup (map items state.2) ∧
  Forall (λ fs, __support_value self (items fs)
                = Ret (support fs, relative_support fs)) state.2.

(** A pool entry carries the support the query gives for its itemset. *)
Definition fragment (self : Store) (fs : FrequentSet) : Prop :=
  __support_value self (items fs) = Ret (support fs, relative_support fs).

(** A fragment of the input of [association_rules]: a set of 1 to
    [maximum_cardinality - 1] items taken from one input itemset. *)
Definition is_fragment (frequent_item_sets : list FrequentSet) (T : gset string) : Prop :=
  ∃ item_set, item_set ∈ frequent_item_sets ∧ T ⊆ items item_set ∧
              1 ≤ size T ≤ maximum_cardinality frequent_item_sets - 1.

(** The pruning of lines 273-283 seen from the list: an object stays when no
    later object of the list has an itemset that includes its own. *)
Fixpoint unpruned (joined : list FrequentSet) : list FrequentSet :=
  match joined with
  | [] => []
  | set1 :: later =>
      if decide (Exists (λ set2, items set1 ⊆ items set2) later)
      then unpruned later
      else set1 :: unpruned later
  end.

(** Two outcomes of the miner that agree up to the order of the returned
    list: the same itemsets are returned, or the same exception is raised. *)
Definition same_outcome (outcome outcome' : result (list FrequentSet)) : Prop :=
  match outcome, outcome' with
  | Ret sets, Ret sets' => sets ≡ₚ sets'
  | Raise e, Raise e' => e = e'
  | OutOfFuel, OutOfFuel => True
  | _, _ => False
  end.

(** ** Concrete inputs *)

(** Scenario 1 of the specification. *)
Definition scenario_1 : list (list string) :=
  [["a"; "b"]; ["a"; "b"; "c"]; ["a"]; ["b"; "c"]].

Definition scenario_1_store : Store :=
  mkStore (_index_transactions scenario_1) (length scenario_1).

(** As mined from scenario 1 at relative threshold 1/2, with pruning. *)
Definition scenario_1_input : list FrequentSet :=
  [mkFrequentSet {["b"; "c"]} 2 (2#4); mkFrequentSet {["a"; "b"]} 2 (2#4)].

(** Two maximal itemsets of different sizes. *)
Definition scenario_pool_store : Store :=
  mkStore (_index_transactions [["a"; "b"; "c"]; ["d"; "e"]]) 2.

Definition scenario_pool_input : list FrequentSet :=
  [mkFrequentSet {["d"; "e"]} 1 (1#2); mkFrequentSet {["a"; "b"; "c"]} 1 (1#2)].

(** Items that never occur together. *)
Definition zero_support_store : Store :=
  mkStore (_index_transactions [["a"; "b"]; ["c"]]) 2.

Definition zero_support_input : list FrequentSet :=
  [mkFrequentSet {["a"; "b"; "c"]} 0 (0#2)].

(** An item present in every transaction. *)
Definition full_coverage_store : Store :=
  mkStore (_index_transactions [["a"; "b"]; ["a"]]) 2.

Definition full_coverage_set : FrequentSet := mkFrequentSet {["a"]} 2 (2#2).

(** A rule derived from [scenario_1_input]. *)
Definition scenario_rule : AssociationRule :=
  mkAssociationRule {["c"]} {["b"]} (2#2) (8#6).

(** Scenario 1 with the first two transactions exchanged and with items
    reordered and repeated inside the transactions. *)
Definition scenario_1_reordered : list (list string) :=
  [["c"; "a"; "b"; "a"]; ["b"; "a"; "b"]; ["a"]; ["c"; "b"]].


(** * Properties *)

(** ** The error monad *)

Lemma bind_Ret_l {A B : Type} (a : A) (k : A → result B) : Ret a ≫= k = k a.
Proof. done. Qed.

Lemma bind_Ret {A B : Type} (m : result A) (k : A → result B) (b : B) :
  m ≫= k = Ret b ↔ ∃ a, m = Ret a ∧ k a = Ret b.
Proof.
  destruct m as [a| |]; simpl; split.
  - eauto.
  - by intros (a' & [= ->] & ?).
  - done.
  - by intros (? & ? & ?).
  - done.
  - by intros (? & ? & ?).
Qed.

Ltac inv_bind H :=
  repeat match type of H with
  | _ ≫= _ = Ret _ =>
      let a := fresh "v" in let Ha := fresh "Hv" in
      apply bind_Ret in H as (a & Ha & H)
  | mbind _ _ = Ret _ =>
      let a := fresh "v" in let Ha := fresh "Hv" in
      apply bind_Ret in H as (a & Ha & H)
  end.

Lemma mapM_Ret {A B : Type} (f : A → result B) (l : list A) (ys : list B) :
  mapM f l = Ret ys ↔ Forall2 (λ x y, f x = Ret y) l ys.
Proof.
  revert ys. induction l as [|x l IH]; intros ys; simpl.
  - split; [intros [= <-]; constructor | by inversion 1].
  - rewrite bind_Ret. split.
    + intros (y & Hy & H). apply bind_Ret in H as (ys' & Hys & [= <-]).
      constructor; [done | by apply IH].
    + inversion 1 as [|? y ? ys' Hy Hys]; subst.
      exists y. split; [done|]. apply bind_Ret. exists ys'. split; [by apply IH | done].
Qed.

Lemma mapM_total {A B : Type} (f : A → result B) (l : list A) :
  Forall (λ x, ∃ y, f x = Ret y) l → ∃ ys, mapM f l = Ret ys.
Proof.
  induction 1 as [|x l [y Hy] _ [ys Hys]]; simpl; [by eexists|].
  rewrite Hy; simpl. rewrite Hys; simpl. by eexists.
Qed.

(** ** combinations *)

Section combinations.
Context {A : Type}.
Implicit Types (l sub : list A) (r : nat).

Lemma combinations_nil_r l : combinations l 0 = [[]].
Proof. by destruct l. Qed.

Lemma elem_of_combinations sub l r :
  sub ∈ combinations l r ↔ sub `sublist_of` l ∧ length sub = r.
Proof.
  revert sub r. induction l as [|x l IH]; intros sub r.
  - destruct r; simpl.
    + rewrite list_elem_of_singleton, sublist_nil_r. split; [by intros -> | by intros [-> _]].
    + rewrite elem_of_nil, sublist_nil_r. split; [done | by intros [-> ?]].
  - destruct r as [|r]; simpl.
    + rewrite list_elem_of_singleton. split.
      * intros ->. split; [apply sublist_nil_l | done].
      * intros [_ Hlen]. by apply nil_length_inv.
    + rewrite elem_of_app, list_elem_of_fmap. setoid_rewrite IH. split.
      * intros [(sub' & -> & Hsub & <-) | [Hsub Hlen]].
        -- split; [by apply sublist_skip | done].
        -- split; [by apply sublist_cons | done].
      * intros [Hsub Hlen]. apply sublist_cons_r in Hsub as [Hsub | (sub' & -> & Hsub)].
        -- by right.
        -- left. exists sub'. simpl in Hlen. by repeat split; [| lia].
Qed.

Lemma combinations_too_long l r : length l < r → combinations l r = [].
Proof.
  intros Hlt. destruct (combinations l r) as [|sub subs] eqn:Heq; [done|].
  assert (sub ∈ combinations l r) as Hin by (rewrite Heq; left).
  apply elem_of_combinations in Hin as [Hsub <-].
  apply sublist_length in Hsub. lia.
Qed.
End combinations.

(** Sub-sequences of a duplicate-free list are determined by their elements. *)
Lemma sublist_NoDup_elem_eq {A : Type} (l s1 s2 : list A) :
  NoDup l → s1 `sublist_of` l → s2 `sublist_of` l →
  (∀ x, x ∈ s1 ↔ x ∈ s2) → s1 = s2.
Proof.
  intros Hnd. revert s1 s2. induction Hnd as [|x l Hx Hnd IH]; intros s1 s2 H1 H2 Heq.
  - apply sublist_nil_r in H1, H2. by subst.
  - apply sublist_cons_r in H1 as [H1 | (s1' & -> & H1)];
      apply sublist_cons_r in H2 as [H2 | (s2' & -> & H2)].
    + by apply IH.
    + exfalso. apply Hx. eapply sublist_subseteq; [exact H1|]. apply Heq. left.
    + exfalso. apply Hx. eapply sublist_subseteq; [exact H2|]. apply Heq. left.
    + f_equal. apply IH; [done..|]. intros y.
      assert (x ∉ s1') by (intros Hin; apply Hx; exact (sublist_subseteq _ _ H1 _ Hin)).
      assert (x ∉ s2') by (intros Hin; apply Hx; exact (sublist_subseteq _ _ H2 _ Hin)).
      specialize (Heq y). rewrite !elem_of_cons in Heq.
      split; intros Hy; [destruct (proj1 Heq (or_intror Hy)) | destruct (proj2 Heq (or_intror Hy))];
        congruence.
Qed.

Section combinations_of_sets.
Implicit Types (X T : gset string) (l sub : list string).

(** A combination drawn from the elements of a set is a subset with as many
    items as the combination is long. *)
Lemma combination_of_elements X sub r :
  sub ∈ combinations (elements X) r →
  list_to_set sub ⊆ X ∧ size (list_to_set sub : gset string) = r ∧ NoDup sub.
Proof.
  intros [Hsub <-]%elem_of_combinations.
  assert (NoDup sub) as Hnd by exact (sublist_NoDup _ _ (NoDup_elements X) Hsub).
  repeat split; [|by apply size_list_to_set | done].
  intros x Hx%elem_of_list_to_set. apply elem_of_elements. by eapply sublist_subseteq.
Qed.

(** Every subset with [r] items is reached by [combinations]. *)
Lemma subset_is_combination X T :
  T ⊆ X → ∃ sub, sub ∈ combinations (elements X) (size T) ∧ list_to_set sub = T.
Proof.
  intros HT. exists (filter (.∈ T) (elements X)).
  assert (list_to_set (filter (.∈ T) (elements X)) = T) as Hset.
  { apply set_eq. intros x. rewrite elem_of_list_to_set, list_elem_of_filter, elem_of_elements.
    split; [by intros [? _] | intros Hx; split; [done | by apply HT]]. }
  split; [|done]. apply elem_of_combinations. split; [apply sublist_filter|].
  transitivity (size (list_to_set (filter (.∈ T) (elements X)) : gset string)).
  - symmetry. apply size_list_to_set, NoDup_filter, NoDup_elements.
  - by rewrite Hset.
Qed.

(** Distinct combinations give distinct sets. *)
Lemma combinations_sets_NoDup X r :
  NoDup (map (list_to_set (C:=gset string)) (combinations (elements X) r)).
Proof.
  apply NoDup_fmap_2_strong.
  - intros s1 s2 [H1 _]%elem_of_combinations [H2 _]%elem_of_combinations Heq.
    eapply sublist_NoDup_elem_eq; [apply (NoDup_elements X) | done..|].
    intros x. rewrite <- !(elem_of_list_to_set (C:=gset string)). by rewrite Heq.
  - generalize (NoDup_elements X). generalize (elements X) as l. clear X.
    intros l Hnd. revert r. induction Hnd as [|x l Hx Hnd IH]; intros r.
    + destruct r; simpl; [apply NoDup_singleton | constructor].
    + destruct r as [|r]; simpl; [apply NoDup_singleton|].
      apply NoDup_app. split_and!.
      * apply NoDup_fmap_2; [intros ?? [= ->]; done | apply IH].
      * intros sub (sub' & -> & _)%list_elem_of_fmap [Hsub _]%elem_of_combinations.
        apply Hx. eapply sublist_subseteq; [done | left].
      * apply IH.
Qed.
End combinations_of_sets.

(** ** sorted *)

Section sorted.
Context {A : Type} (lt : A → A → bool).
Implicit Types (l prefix_rev : list A).

Lemma insert_from_right_Permutation x prefix_rev :
  insert_from_right lt x prefix_rev ≡ₚ x :: prefix_rev.
Proof.
  induction prefix_rev as [|y rest IH]; simpl; [done|].
  destruct (lt x y); [|done]. rewrite IH. apply Permutation_swap.
Qed.

Lemma insertion_loop_Permutation l prefix_rev :
  foldl (λ prefix_rev x, insert_from_right lt x prefix_rev) prefix_rev l ≡ₚ l ++ prefix_rev.
Proof.
  revert prefix_rev. induction l as [|x l IH]; intros prefix_rev; simpl; [done|].
  rewrite IH, insert_from_right_Permutation. by rewrite Permutation_middle.
Qed.

Lemma sorted_Permutation l : sorted lt l ≡ₚ l.
Proof.
  unfold sorted. rewrite reverse_Permutation, insertion_loop_Permutation.
  by rewrite app_nil_r.
Qed.

Lemma sorted_reverse_Permutation l : sorted_reverse lt l ≡ₚ l.
Proof.
  unfold sorted_reverse.
  by rewrite reverse_Permutation, sorted_Permutation, reverse_Permutation.
Qed.

Lemma elem_of_sorted_reverse x l : x ∈ sorted_reverse lt l ↔ x ∈ l.
Proof. by rewrite sorted_reverse_Permutation. Qed.

(** No element [<] an earlier one: nothing moves. *)
Lemma insertion_loop_no_inversion l prefix_rev :
  StronglySorted (λ a b, lt b a = false) (reverse prefix_rev ++ l) →
  foldl (λ prefix_rev x, insert_from_right lt x prefix_rev) prefix_rev l
  = reverse l ++ prefix_rev.
Proof.
  revert prefix_rev. induction l as [|x l IH]; intros prefix_rev Hs; simpl; [done|].
  assert (insert_from_right lt x prefix_rev = x :: prefix_rev) as ->.
  { destruct prefix_rev as [|y rest]; simpl; [done|].
    assert (lt x y = false) as ->; [|done].
    eapply (StronglySorted_app_1_elem_of _ _ _ _ _ Hs).
    - rewrite elem_of_reverse. left.
    - left. }
  rewrite IH.
  - by rewrite reverse_cons, <- app_assoc.
  - by rewrite reverse_cons, <- app_assoc.
Qed.

Lemma sorted_no_inversion l :
  StronglySorted (λ a b, lt b a = false) l → sorted lt l = l.
Proof.
  intros Hs. unfold sorted. rewrite insertion_loop_no_inversion by done.
  by rewrite app_nil_r, reverse_involutive.
Qed.
End sorted.

Lemma StronglySorted_reverse {A : Type} (R : A → A → Prop) (l : list A) :
  StronglySorted R l → StronglySorted (flip R) (reverse l).
Proof.
  induction 1 as [|x l Hs IH Hx]; [constructor|].
  rewrite reverse_cons. apply StronglySorted_app. split_and!; [|done|].
  - intros a b Ha ->%list_elem_of_singleton. rewrite elem_of_reverse in Ha.
    rewrite Forall_forall in Hx. unfold flip. by apply Hx.
  - repeat constructor.
Qed.

Lemma StronglySorted_lookup {A : Type} (R : A → A → Prop) (l : list A) i j x y :
  StronglySorted R l → i < j → l !! i = Some x → l !! j = Some y → R x y.
Proof.
  intros Hs. revert i j. induction Hs as [|a l Hs IH Ha]; intros i j Hij Hi Hj; [done|].
  destruct i as [|i], j as [|j]; try lia; simpl in *.
  - injection Hi as ->. rewrite Forall_forall in Ha. apply Ha. by eapply list_elem_of_lookup_2.
  - eapply IH; [|done..]. lia.
Qed.

(** Sorting by a rational key: the result is in non-increasing key order. *)
Section sorted_by_key.
Context {A : Type} (key : A → Q).
Let key_lt (x y : A) : bool := Qltb (key x) (key y).

Lemma Qltb_false x y : Qltb x y = false ↔ (y <= x)%Q.
Proof.
  unfold Qltb. rewrite negb_false_iff. apply Qle_bool_iff.
Qed.

Lemma Qltb_true x y : Qltb x y = true ↔ (x < y)%Q.
Proof.
  unfold Qltb. rewrite negb_true_iff, <- not_true_iff_false, Qle_bool_iff.
  split; [apply Qnot_le_lt | apply Qlt_not_le].
Qed.

Lemma insert_from_right_descending x prefix_rev :
  StronglySorted (λ a b, (key b <= key a)%Q) prefix_rev →
  StronglySorted (λ a b, (key b <= key a)%Q) (insert_from_right key_lt x prefix_rev).
Proof.
  induction 1 as [|y rest Hs IH Hy]; simpl; [repeat constructor|].
  unfold key_lt at 1. destruct (Qltb (key x) (key y)) eqn:Hlt.
  - constructor; [done|]. apply Qltb_true in Hlt.
    rewrite insert_from_right_Permutation. constructor; [by apply Qlt_le_weak | done].
  - apply Qltb_false in Hlt. constructor; [by constructor|].
    constructor; [done|]. eapply Forall_impl; [done|]. simpl. intros z Hz.
    by eapply Qle_trans.
Qed.

Lemma insertion_loop_descending l prefix_rev :
  StronglySorted (λ a b, (key b <= key a)%Q) prefix_rev →
  StronglySorted (λ a b, (key b <= key a)%Q)
    (foldl (λ prefix_rev x, insert_from_right key_lt x prefix_rev) prefix_rev l).
Proof.
  revert prefix_rev. induction l as [|x l IH]; intros prefix_rev Hs; simpl; [done|].
  by apply IH, insert_from_right_descending.
Qed.

Lemma sorted_ascending l :
  StronglySorted (λ a b, (key a <= key b)%Q) (sorted key_lt l).
Proof.
  unfold sorted.
  apply (StronglySorted_reverse (λ a b, (key b <= key a)%Q)), insertion_loop_descending.
  constructor.
Qed.

Lemma sorted_reverse_descending l :
  StronglySorted (λ a b, (key b <= key a)%Q) (sorted_reverse key_lt l).
Proof.
  unfold sorted_reverse.
  apply (StronglySorted_reverse (λ a b, (key a <= key b)%Q)), sorted_ascending.
Qed.
End sorted_by_key.

(** ** The support query *)

Section support.
Variable self : Store.
Implicit Types (candidate A B : gset string).

Lemma elem_of_foldl_intersection (X : gset nat) (Xs : list (gset nat)) t :
  t ∈ foldl (∩) X Xs ↔ t ∈ X ∧ ∀ Y, Y ∈ Xs → t ∈ Y.
Proof.
  revert X. induction Xs as [|Y Xs IH]; intros X; simpl.
  - split; [intros ?; split; [done | by intros ? ?%elem_of_nil] | by intros [? _]].
  - rewrite IH, elem_of_intersection. split.
    + intros [[? ?] HXs]. split; [done|]. by intros Z [->|?]%elem_of_cons; [|apply HXs].
    + intros [? HXs]. split_and!; [done | apply HXs; left |].
      intros Z ?. apply HXs. by right.
Qed.

Lemma reduce_intersection_covers candidate (transactions : gset nat) :
  reduce (∩) (map (_item_transactions self) (elements candidate)) = Ret transactions →
  candidate ≠ ∅ ∧ ∀ t, t ∈ transactions ↔ covers self candidate t.
Proof.
  unfold reduce, covers.
  destruct (elements candidate) as [|x l] eqn:Hel; simpl; [done|].
  intros [= <-]. split.
  - intros ->. by rewrite elements_empty in Hel.
  - intros t. rewrite elem_of_foldl_intersection.
    setoid_rewrite <- elem_of_elements. rewrite Hel.
    setoid_rewrite elem_of_cons. setoid_rewrite list_elem_of_fmap. split.
    + intros [? H] item [->|?]; [done|]. apply H. by exists item.
    + intros H. split; [by apply H; left|]. intros Y (item & -> & ?). apply H. by right.
Qed.

Lemma reduce_intersection_total candidate :
  candidate ≠ ∅ →
  ∃ transactions,
    reduce (∩) (map (_item_transactions self) (elements candidate)) = Ret transactions.
Proof.
  intros Hne. destruct (elements candidate) as [|x l] eqn:Hel; simpl; [|by eexists].
  by apply elements_empty_inv, leibniz_equiv in Hel.
Qed.

Lemma py_div_Ret a b q : py_div a b = Ret q ↔ ¬ (b == 0)%Q ∧ q = (a / b)%Q.
Proof.
  unfold py_div. destruct (Qeq_bool b 0) eqn:Hb.
  - apply Qeq_bool_iff in Hb. split; [done | by intros [? _]].
  - apply Qeq_bool_neq in Hb. split; [by intros [= <-] | by intros [_ ->]].
Qed.

Lemma Qnat_eq_0 n : (Qnat n == 0)%Q ↔ n = 0.
Proof.
  unfold Qnat, Qeq; simpl. lia.
Qed.

Lemma Qnat_le m n : (Qnat m <= Qnat n)%Q ↔ m ≤ n.
Proof.
  unfold Qnat. rewrite <- Zle_Qle. lia.
Qed.

Lemma Qnat_nonneg n : (0 <= Qnat n)%Q.
Proof. apply (Qnat_le 0). lia. Qed.

(** What a successful support query returned. *)
Lemma support_value_Ret candidate support relative_support :
  __support_value self candidate = Ret (support, relative_support) ↔
  candidate ≠ ∅ ∧ _transaction_count self ≠ 0 ∧
  (∃ transactions : gset nat,
      (∀ t, t ∈ transactions ↔ covers self candidate t) ∧ support = size transactions) ∧
  relative_support = (Qnat support / Qnat (_transaction_count self))%Q.
Proof.
  unfold __support_value. split.
  - intros H. inv_bind H. injection H as <- <-.
    apply reduce_intersection_covers in Hv as [? ?].
    apply py_div_Ret in Hv0 as [Hc ->]. rewrite Qnat_eq_0 in Hc.
    split_and!; [done..| by eexists | done].
  - intros (Hne & Hc & (X & HX & ->) & ->).
    destruct (reduce_intersection_total candidate Hne) as [Y HY]. rewrite HY; simpl.
    apply reduce_intersection_covers in HY as [_ HY].
    assert (Y = X) as -> by (apply set_eq; intros t; by rewrite HY, HX).
    unfold py_div. destruct (Qeq_bool _ 0) eqn:Hb; [|done].
    by apply Qeq_bool_iff, Qnat_eq_0 in Hb.
Qed.

(** The query returns as soon as the candidate has an item and the store a
    transaction. *)
Lemma support_value_total candidate :
  candidate ≠ ∅ → _transaction_count self ≠ 0 →
  ∃ support relative_support,
    __support_value self candidate = Ret (support, relative_support).
Proof.
  intros Hne Hc. destruct (reduce_intersection_total candidate Hne) as [Y HY].
  exists (size Y), (Qnat (size Y) / Qnat (_transaction_count self))%Q.
  apply support_value_Ret. split_and!; [done..| |done].
  exists Y. split; [|done]. by apply reduce_intersection_covers in HY as [_ ?].
Qed.

Lemma support_value_anti A B sa ra sb rb :
  A ⊆ B →
  __support_value self A = Ret (sa, ra) → __support_value self B = Ret (sb, rb) →
  sb ≤ sa ∧ (rb <= ra)%Q.
Proof.
  intros HAB (_ & Hc & (XA & HA & ->) & ->)%support_value_Ret
             (_ & _ & (XB & HB & ->) & ->)%support_value_Ret.
  assert (size XB ≤ size XA) as Hle.
  { apply subseteq_size. intros t. rewrite HA, HB. intros Ht item Hi. by apply Ht, HAB. }
  split; [done|].
  apply Qmult_le_compat_r; [by apply Qnat_le|].
  apply Qinv_le_0_compat, Qnat_nonneg.
Qed.
End support.

(** The stores used as concrete inputs are the ones the constructor builds. *)
Example concrete_stores_constructed :
  __init__ (Some scenario_1) = Ret scenario_1_store ∧
  __init__ (Some [["a"; "b"; "c"]; ["d"; "e"]]) = Ret scenario_pool_store ∧
  __init__ (Some [["a"; "b"]; ["c"]]) = Ret zero_support_store ∧
  __init__ (Some [["a"; "b"]; ["a"]]) = Ret full_coverage_store.
Proof. by split_and!. Qed.

(** C6. Support monotonicity, for non-empty itemsets [A ⊆ B]: whenever the
    support query returns for both, the support of the superset [B] is at
    most the support of [A]; it does return for both as soon as the store has
    a transaction, which is the case of a constructed store when [A] is drawn
    from indexed items. *)
Theorem support_monotone (self : Store) (A B : gset string) :
  A ≠ ∅ → A ⊆ B →
  (∀ sa ra sb rb,
     __support_value self A = Ret (sa, ra) → __support_value self B = Ret (sb, rb) →
     sb ≤ sa) ∧
  (_transaction_count self ≠ 0 →
   ∃ sa ra sb rb,
     __support_value self A = Ret (sa, ra) ∧
     __support_value self B = Ret (sb, rb) ∧
     sb ≤ sa) ∧
  (∀ transactions,
     __init__ (Some transactions) = Ret self → A ⊆ dom (_transaction_index self) →
     _transaction_count self ≠ 0).
Proof.
  intros HA HAB. split_and!.
  - intros sa ra sb rb Ha Hb.
    by destruct (support_value_anti self A B sa ra sb rb HAB Ha Hb).
  - intros Hc. assert (B ≠ ∅) as HB by set_solver.
    destruct (support_value_total self A HA Hc) as (sa & ra & Ha).
    destruct (support_value_total self B HB Hc) as (sb & rb & Hb).
    exists sa, ra, sb, rb. split_and!; [done..|].
    by destruct (support_value_anti self A B sa ra sb rb HAB Ha Hb).
  - intros [|transaction transactions]; simpl; intros [= <-]; simpl; [|done].
    intros Hdom _. apply HA. apply set_eq. intros item. split; [|by intros ?%elem_of_empty].
    intros Hitem%Hdom. change (item ∈ dom (∅ : gmap string (gset nat))) in Hitem.
    by rewrite dom_empty in Hitem.
Qed.

Lemma support_monotone_witness :
  ∃ sa ra sb rb,
    __support_value scenario_1_store {["a"]} = Ret (sa, ra) ∧
    __support_value scenario_1_store {["a"; "b"]} = Ret (sb, rb) ∧
    sb ≤ sa.
Proof.
  destruct (support_monotone scenario_1_store {["a"]} {["a"; "b"]}) as (_ & Hreturns & _).
  - by vm_compute.
  - apply (bool_decide_unpack _). by vm_compute.
  - apply Hreturns. by vm_compute.
Defined.

(** C10. Leaving [transactions] out (so that it is [None]) raises [TypeError],
    and a store that was constructed was given a transaction list, of which it
    records the length. *)
Theorem init_requires_transactions :
  __init__ None = Raise TypeError ∧
  ∀ transactions self,
    __init__ transactions = Ret self →
    ∃ txs, transactions = Some txs ∧ _transaction_count self = length txs.
Proof.
  split; [done|].
  intros [txs|] self; simpl; [|done].
  intros [= <-]. by exists txs.
Qed.

Lemma init_requires_transactions_witness :
  ∃ txs, Some scenario_1 = Some txs ∧ _transaction_count scenario_1_store = length txs.
Proof.
  apply (proj2 init_requires_transactions (Some scenario_1) scenario_1_store).
  reflexivity.
Defined.

(** ** The threshold *)

Lemma truncate_integer (z : Z) : truncate (inject_Z z) = z.
Proof. unfold truncate; simpl. apply Z.quot_1_r. Qed.

(** A fraction strictly between -1 and 0 is truncated to 0. *)
Lemma truncate_fraction (q : Q) : (-1 < q)%Q → (q < 0)%Q → truncate q = 0%Z.
Proof.
  destruct q as [n d]. unfold Qlt, truncate. simpl. intros Hlo Hhi.
  replace n with (- (- n))%Z by lia.
  rewrite Z.quot_opp_l by lia. rewrite Z.quot_small by lia. done.
Qed.

(** The threshold used for a finite [minimum_support], case by case. *)
Lemma clamp_minimum_support_cases (self : Store) (minimum_support : Q) :
  ((0 <= minimum_support)%Q ∧ (minimum_support <= 1)%Q →
     clamp_minimum_support self minimum_support true = Ret minimum_support) ∧
  (¬ ((0 <= minimum_support)%Q ∧ (minimum_support <= 1)%Q) →
     clamp_minimum_support self minimum_support true = Ret 1%Q) ∧
  ((0 ≤ truncate minimum_support ≤ Z.of_nat (_transaction_count self))%Z →
     clamp_minimum_support self minimum_support false
     = Ret (inject_Z (truncate minimum_support))) ∧
  ((truncate minimum_support < 0
    ∨ Z.of_nat (_transaction_count self) < truncate minimum_support)%Z →
     clamp_minimum_support self minimum_support false = Ret (Qnat (_transaction_count self))) ∧
  clamp_minimum_support self (-1) false = Ret (Qnat (_transaction_count self)).
Proof.
  unfold clamp_minimum_support. split_and!.
  - intros [H0 H1]. apply Qle_bool_iff in H0, H1. by rewrite H0, H1.
  - intros Hn. destruct (Qle_bool 0 minimum_support) eqn:H0;
      destruct (Qle_bool minimum_support 1) eqn:H1; simpl; try done.
    exfalso. apply Hn. by rewrite <- !Qle_bool_iff.
  - intros [H0 H1]. simpl.
    destruct (Z.ltb_spec (truncate minimum_support) 0); [lia|].
    destruct (Z.ltb_spec (Z.of_nat (_transaction_count self)) (truncate minimum_support));
      [lia | done].
  - intros H. simpl.
    destruct (Z.ltb_spec (truncate minimum_support) 0); [done|].
    destruct (Z.ltb_spec (Z.of_nat (_transaction_count self)) (truncate minimum_support));
      [done | lia].
  - done.
Qed.

(** The threshold used for a [minimum_support] that is not finite. *)
Lemma clamp_minimum_support_not_finite (self : Store) (minimum_support : pyfloat) :
  (∀ q, minimum_support ≠ Finite q) →
  clamp_minimum_support self minimum_support true = Ret 1%Q ∧
  clamp_minimum_support self minimum_support false
  = Raise (match minimum_support with NaN => ValueError | _ => OverflowError end).
Proof.
  intros Hq. destruct minimum_support as [q| | |]; [by destruct (Hq q)|done..].
Qed.

(** The clamp returns or raises what [int] raises. *)
Lemma clamp_minimum_support_outcome (self : Store) (minimum_support : pyfloat)
    (is_relative_support : bool) :
  (∃ threshold,
     clamp_minimum_support self minimum_support is_relative_support = Ret threshold) ∨
  (is_relative_support = false ∧
   ∃ e, py_int minimum_support = Raise e ∧
        clamp_minimum_support self minimum_support is_relative_support = Raise e).
Proof.
  unfold clamp_minimum_support.
  destruct is_relative_support.
  - left. destruct minimum_support as [q| | |]; eauto.
    destruct (_ && _); eauto.
  - destruct minimum_support as [q| | |]; simpl; eauto.
    left. destruct (_ || _); eauto.
Qed.

Lemma clamp_minimum_support_finite (self : Store) (minimum_support : Q)
    (is_relative_support : bool) :
  ∃ threshold,
    clamp_minimum_support self minimum_support is_relative_support = Ret threshold.
Proof.
  destruct (clamp_minimum_support_outcome self minimum_support is_relative_support)
    as [?|(_ & e & He & _)]; [done|done].
Qed.

Lemma clamp_minimum_support_relative (self : Store) (minimum_support : pyfloat) :
  ∃ threshold, clamp_minimum_support self minimum_support true = Ret threshold.
Proof.
  destruct (clamp_minimum_support_outcome self minimum_support true)
    as [?|(? & _)]; [done|done].
Qed.

(** C5 as stated fails: an absolute threshold below 0 is not always replaced
    by the transaction count.  -1/2 is truncated to 0 and kept. *)
Lemma clamp_below_zero_not_replaced :
  ¬ ∀ (self : Store) (minimum_support : Q),
      (minimum_support < 0)%Q ∨ (Qnat (_transaction_count self) < minimum_support)%Q →
      ∃ threshold,
        clamp_minimum_support self minimum_support false = Ret threshold ∧
        (threshold == Qnat (_transaction_count self))%Q.
Proof.
  intros H.
  destruct (H scenario_1_store (-1#2)%Q (or_introl eq_refl)) as (threshold & Hclamp & Heq).
  vm_compute in Hclamp. injection Hclamp as <-. by vm_compute in Heq.
Qed.

(** ** The empty store *)

(** C8 as stated fails: in absolute mode [int] raises on a NaN before the
    store is looked at, also on the store built from an empty transaction
    list. *)
Lemma empty_store_rejects_nan :
  ¬ ∀ (minimum_support : pyfloat) (is_relative_support prune : bool),
      (self ← __init__ (Some []);
       get_frequent_item_sets self minimum_support is_relative_support prune) = Ret [].
Proof.
  intros H. by specialize (H NaN false true).
Qed.

(** C8, amended.  On the store built from an empty transaction list
    [get_frequent_item_sets] returns the empty list, whatever the pruning
    flag, for every threshold in relative mode and for every finite threshold
    in absolute mode; no division by the zero transaction count takes place.
    In absolute mode a NaN raises [ValueError] and an infinity raises
    [OverflowError]. *)
Theorem empty_store_no_frequent_sets (minimum_support : pyfloat)
    (is_relative_support prune : bool) :
  (self ← __init__ (Some []);
   get_frequent_item_sets self minimum_support is_relative_support prune)
  = if is_relative_support then Ret []
    else match minimum_support with
         | Finite _ => Ret []
         | NaN => Raise ValueError
         | PosInf | NegInf => Raise OverflowError
         end.
Proof.
  destruct is_relative_support, prune, minimum_support as [q| | |]; try done.
  - cbn. unfold get_frequent_item_sets, get_frequent_item_sets_fuel, clamp_minimum_support.
    by destruct (Qle_bool 0 q && Qle_bool q 1).
  - cbn. unfold get_frequent_item_sets, get_frequent_item_sets_fuel, clamp_minimum_support.
    by destruct (Qle_bool 0 q && Qle_bool q 1).
  - cbn. unfold get_frequent_item_sets, get_frequent_item_sets_fuel, clamp_minimum_support.
    simpl. by destruct (_ || _).
  - cbn. unfold get_frequent_item_sets, get_frequent_item_sets_fuel, clamp_minimum_support.
    simpl. by destruct (_ || _).
Qed.

(** ** Candidate generation *)

Section candidates.
Implicit Types (sets : list FrequentSet) (candidate T : gset string).

Lemma elem_of_possible_candidate_sets sets iteration candidate :
  candidate ∈ possible_candidate_sets sets iteration ↔
  candidate ⊆ unique_items sets ∧ size candidate = iteration + 1.
Proof.
  unfold possible_candidate_sets. rewrite list_elem_of_fmap. split.
  - intros (sub & -> & Hsub). by apply combination_of_elements in Hsub as (? & ? & _).
  - intros [Hsub <-]. destruct (subset_is_combination _ _ Hsub) as (sub & ? & <-).
    by exists sub.
Qed.

Lemma discard_candidate_false (previous : gset (gset string)) iteration candidate :
  discard_candidate previous iteration candidate = false ↔
  ∀ T, T ⊆ candidate → size T = iteration → T ∈ previous.
Proof.
  unfold discard_candidate. rewrite <- not_true_iff_false, existsb_exists. split.
  - intros Hno T HT <-. destruct (subset_is_combination _ _ HT) as (sub & Hsub & <-).
    destruct (decide (list_to_set sub ∈ previous)) as [|Hnot]; [done|].
    exfalso. apply Hno. exists sub. split; [by apply list_elem_of_In|].
    by apply bool_decide_eq_true.
  - intros Hall (sub & Hsub%list_elem_of_In & Hnot%bool_decide_eq_true).
    apply combination_of_elements in Hsub as (? & ? & _). by apply Hnot, Hall.
Qed.

(** The candidates whose support is computed at [iteration]: the sets of
    [iteration + 1] items drawn from the previous level, all of whose
    subsets of [iteration] items are in the previous level (from the second
    turn on). *)
Lemma elem_of_candidate_sets sets iteration candidate :
  candidate ∈ candidate_sets sets iteration ↔
  candidate ⊆ unique_items sets ∧ size candidate = iteration + 1 ∧
  (0 < iteration →
     ∀ T, T ⊆ candidate → size T = iteration → T ∈ map items sets).
Proof.
  unfold candidate_sets. case_bool_decide as Hit.
  - rewrite list_elem_of_filter, elem_of_possible_candidate_sets, discard_candidate_false.
    unfold previous_frequent_sets. setoid_rewrite elem_of_list_to_set. naive_solver.
  - rewrite elem_of_possible_candidate_sets. naive_solver.
Qed.

Lemma candidate_sets_NoDup sets iteration : NoDup (candidate_sets sets iteration).
Proof.
  unfold candidate_sets, possible_candidate_sets.
  case_bool_decide; [apply NoDup_filter|]; apply combinations_sets_NoDup.
Qed.

Lemma elem_of_unique_items sets item :
  item ∈ unique_items sets ↔ ∃ fs, fs ∈ sets ∧ item ∈ items fs.
Proof.
  unfold unique_items. rewrite elem_of_union_list. setoid_rewrite list_elem_of_fmap.
  naive_solver.
Qed.
End candidates.

(** ** The level-wise search *)

Section miner.
Variables (self : Store) (minimum_support : Q) (is_relative_support : bool).
Implicit Types (sets current : list FrequentSet) (candidate : gset string).
Implicit Types (d : list (nat * list FrequentSet)).

Local Abbreviation meets_minimum_support :=
  (meets_minimum_support self minimum_support is_relative_support).
Local Abbreviation is_frequent := (is_frequent self minimum_support is_relative_support).
Local Abbreviation levels := (levels self minimum_support is_relative_support).
Local Abbreviation levels_next := (levels_next self minimum_support is_relative_support).
Local Abbreviation level_ok := (level_ok self minimum_support is_relative_support).

Lemma is_frequent_meets fs : is_frequent fs → meets_minimum_support (items fs).
Proof. intros [? ?]. by eexists _, _. Qed.

Lemma current_iteration_frequent_sets_Ret candidates current :
  current_iteration_frequent_sets self minimum_support is_relative_support candidates
    = Ret current →
  Forall is_frequent current ∧
  map items current `sublist_of` candidates ∧
  (∀ candidate, candidate ∈ candidates → meets_minimum_support candidate →
                candidate ∈ map items current).
Proof.
  revert current. induction candidates as [|c rest IH]; intros current; simpl.
  - intros [= <-]. split_and!; [constructor | constructor | by intros ? ?%elem_of_nil].
  - intros H. apply bind_Ret in H as ([s r] & Hsv & H).
    apply bind_Ret in H as (later & Hlater & H).
    destruct (IH later Hlater) as (Hfreq & Hsub & Hall).
    destruct (not_minimum_support _ _ s r) eqn:Hnot; injection H as <-.
    + split_and!; [done | by apply sublist_cons |].
      intros c' [->|?]%elem_of_cons (s' & r' & Hsv' & Hnot'); [|by apply Hall; [|exists s', r']].
      rewrite Hsv in Hsv'. injection Hsv' as <- <-. congruence.
    + split_and!.
      * by constructor.
      * simpl. by apply sublist_skip.
      * intros c' [->|?]%elem_of_cons ?; simpl; [left | right; by apply Hall].
Qed.

Lemma support_value_no_timeout candidate : __support_value self candidate ≠ OutOfFuel.
Proof.
  unfold __support_value, reduce, py_div.
  destruct (map _ _); simpl; [done|]. by destruct (Qeq_bool _ _).
Qed.

Lemma current_iteration_frequent_sets_no_timeout candidates :
  current_iteration_frequent_sets self minimum_support is_relative_support candidates
    ≠ OutOfFuel.
Proof.
  induction candidates as [|c rest IH]; simpl; [done|].
  pose proof (support_value_no_timeout c).
  destruct (__support_value self c) as [[s r]| |]; simpl; [|done..].
  destruct (current_iteration_frequent_sets _ _ _ rest); simpl; [|done..].
  by destruct (not_minimum_support _ _ _ _).
Qed.

Lemma levels_keys k d : levels k d → map fst d = seq 0 (S k).
Proof.
  induction 1 as [|k d sets current _ IH _ _ _]; [done|].
  rewrite map_app, IH. simpl. by rewrite (seq_S (S k) 0) at 1.
Qed.
Lemma dict_get_elem_of {V : Type} (dict : list (nat * V)) k v :
  dict_get dict k = Ret v → (k, v) ∈ dict.
Proof.
  unfold dict_get. destruct (filter _ dict) as [|[k' v'] rest] eqn:Hf; [done|].
  intros [= <-].
  assert ((k', v') ∈ filter (λ kv, kv.1 = k) dict) as Hin by (rewrite Hf; left).
  apply list_elem_of_filter in Hin as [Hk ?]. simpl in Hk. by subst.
Qed.

Lemma dict_get_unique {V : Type} (dict : list (nat * V)) k v :
  NoDup (map fst dict) → (k, v) ∈ dict → dict_get dict k = Ret v.
Proof.
  unfold dict_get. induction dict as [|[k' v'] dict IH]; simpl.
  - by intros _ ?%elem_of_nil.
  - intros [Hk' Hnd]%NoDup_cons [[= <- <-]|Hin]%elem_of_cons.
    + by rewrite filter_cons_True.
    + rewrite filter_cons_False; [by apply IH|]. simpl. intros ->.
      apply Hk'. apply list_elem_of_fmap. by exists (k, v).
Qed.

Lemma levels_keys_NoDup k d : levels k d → NoDup (map fst d).
Proof. intros ->%levels_keys. apply NoDup_seq. Qed.

Lemma levels_key_bound k d j sets : levels k d → (j, sets) ∈ d → j ≤ k.
Proof.
  intros Hk%levels_keys Hin.
  assert (j ∈ map fst d) as Hj by (apply list_elem_of_fmap; by exists (j, sets)).
  rewrite Hk, elem_of_seq in Hj. lia.
Qed.

(** Each level is computed from the level before it. *)
Lemma levels_consecutive k d j sets next :
  levels k d → (j, sets) ∈ d → (S j, next) ∈ d →
  current_iteration_frequent_sets self minimum_support is_relative_support
    (candidate_sets sets j) = Ret next ∧ next ≠ [].
Proof.
  induction 1 as [|k d sets' current Hlev IH Hget Hcur Hne].
  - by intros _ [=]%list_elem_of_singleton.
  - rewrite !elem_of_app, !list_elem_of_singleton.
    intros [Hj|Hj] [HSj|HSj].
    + by apply IH.
    + injection HSj as -> ->. assert (sets = sets') as ->; [|done].
      apply dict_get_elem_of in Hget.
      pose proof (levels_keys_NoDup _ _ Hlev) as Hnd.
      apply (dict_get_unique _ _ _ Hnd) in Hj, Hget. congruence.
    + injection Hj as -> ->. apply (levels_key_bound _ _ _ _ Hlev) in HSj. lia.
    + injection Hj as -> ->. injection HSj as Hk _. lia.
Qed.

Lemma unique_items_initial_set :
  unique_items (initial_set self is_relative_support) = dom (_transaction_index self).
Proof.
  apply set_eq. intros item. rewrite elem_of_unique_items. unfold initial_set, _get_all_items.
  setoid_rewrite list_elem_of_fmap. setoid_rewrite elem_of_elements. split.
  - intros (fs & (key & -> & Hkey) & Hitem). simpl in Hitem.
    by apply elem_of_singleton in Hitem as ->.
  - intros Hitem. eexists. split; [by exists item|]. simpl. by apply elem_of_singleton.
Qed.

Lemma level_ok_unique_items k sets :
  level_ok k sets → unique_items sets ⊆ dom (_transaction_index self).
Proof.
  intros [Hall _] item (fs & Hfs & Hitem)%elem_of_unique_items.
  rewrite Forall_forall in Hall. destruct (Hall fs Hfs) as (_ & _ & Hsub). by apply Hsub.
Qed.

Lemma levels_inv k d j sets :
  levels k d → (j, sets) ∈ d →
  unique_items sets ⊆ dom (_transaction_index self) ∧ (0 < j → level_ok j sets).
Proof.
  intros Hlev. revert j sets.
  induction Hlev as [|k d sets' current Hlev IH Hget Hcur Hne]; intros j sets.
  - intros [= -> ->]%list_elem_of_singleton. split; [|lia].
    by rewrite unique_items_initial_set.
  - rewrite elem_of_app, list_elem_of_singleton. intros [Hin|[= -> ->]]; [by apply IH|].
    assert (level_ok (S k) current) as Hok.
    { apply dict_get_elem_of, IH in Hget as [Huniq _].
      apply current_iteration_frequent_sets_Ret in Hcur as (Hfreq & Hsub & _).
      split.
      - rewrite Forall_forall in Hfreq |- *. intros fs Hfs. split; [by apply Hfreq|].
        assert (items fs ∈ candidate_sets sets' k) as Hcand.
        { eapply sublist_subseteq; [done|]. apply list_elem_of_fmap. by exists fs. }
        apply elem_of_candidate_sets in Hcand as (? & -> & _).
        split; [lia | set_solver].
      - eapply sublist_NoDup; [apply candidate_sets_NoDup | done]. }
    split; [by eapply level_ok_unique_items | done].
Qed.

Lemma levels_bound k d : levels k d → k ≤ size (dom (_transaction_index self)).
Proof.
  destruct 1 as [|k d sets current Hlev Hget Hcur Hne]; [lia|].
  assert (levels (S k) (d ++ [(S k, current)])) as Hlev' by by apply (levels_next k d sets current).
  destruct current as [|fs current]; [done|].
  destruct (levels_inv _ _ (S k) (fs :: current) Hlev') as [_ [Hall _]];
    [apply elem_of_app; right; left | lia |].
  apply Forall_cons in Hall as [(_ & <- & Hsub) _]. by apply subseteq_size.
Qed.

(** The loop keeps [levels], and stops at a level none of whose candidates
    meets the threshold. *)
Lemma while_next_iteration_Ret fuel k d d' :
  levels k d →
  while_next_iteration fuel self minimum_support is_relative_support k d = Ret d' →
  ∃ k' sets', levels k' d' ∧ dict_get d' k' = Ret sets' ∧
    current_iteration_frequent_sets self minimum_support is_relative_support
      (candidate_sets sets' k') = Ret [].
Proof.
  revert k d. induction fuel as [|fuel IH]; intros k d Hlev; simpl; [done|].
  intros H. apply bind_Ret in H as (sets & Hget & H).
  apply bind_Ret in H as (current & Hcur & H).
  case_bool_decide as Hlen.
  - rewrite Nat.add_1_r in H. apply IH in H; [done|].
    apply (levels_next k d sets current); [done..|]. intros ->. simpl in Hlen. lia.
  - injection H as <-. exists k, sets. split_and!; [done..|].
    destruct current; [done | simpl in Hlen; lia].
Qed.

Lemma dict_get_no_timeout {V : Type} (dict : list (nat * V)) k : dict_get dict k ≠ OutOfFuel.
Proof. unfold dict_get. by destruct (filter _ dict) as [|[? ?] ?]. Qed.

(** More fuel than there are items is never used up. *)
Lemma while_next_iteration_no_timeout fuel k d :
  levels k d → size (dom (_transaction_index self)) < fuel + k →
  while_next_iteration fuel self minimum_support is_relative_support k d ≠ OutOfFuel.
Proof.
  revert k d. induction fuel as [|fuel IH]; intros k d Hlev Hfuel; simpl.
  - apply levels_bound in Hlev. lia.
  - pose proof (dict_get_no_timeout d k).
    destruct (dict_get d k) as [sets| |] eqn:Hget; simpl; [|done..].
    pose proof (current_iteration_frequent_sets_no_timeout (candidate_sets sets k)).
    destruct (current_iteration_frequent_sets _ _ _ _) as [current| |] eqn:Hcur;
      simpl; [|done..].
    case_bool_decide as Hlen; [|done].
    rewrite Nat.add_1_r. apply IH; [|lia].
    apply (levels_next k d sets current); [done..|]. intros ->. simpl in Hlen. lia.
Qed.

Lemma retained_snoc d k current :
  retained (d ++ [(S k, current)]) = retained d ++ current.
Proof.
  unfold retained, joined_frequent_sets.
  rewrite filter_app, filter_cons_True by done. rewrite filter_nil.
  rewrite map_app, join_app. simpl. by rewrite app_nil_r.
Qed.

Lemma elem_of_retained d fs :
  fs ∈ retained d ↔ ∃ j sets, 0 < j ∧ (j, sets) ∈ d ∧ fs ∈ sets.
Proof.
  unfold retained, joined_frequent_sets. rewrite list_elem_of_join.
  setoid_rewrite list_elem_of_fmap. setoid_rewrite list_elem_of_filter. split.
  - intros (sets & Hfs & [j sets'] & -> & Hj & Hin). simpl in *.
    exists j, sets'. split_and!; [lia | done..].
  - intros (j & sets & Hj & Hin & Hfs). exists sets. split; [done|].
    exists (j, sets). split_and!; [done | simpl; lia | done].
Qed.

Lemma levels_dict_del k d : levels k d → dict_del d 0 = Ret (filter (λ kv, kv.1 ≠ 0) d).
Proof.
  intros Hlev. unfold dict_del.
  assert (∃ sets, dict_get d 0 = Ret sets) as [sets ->]; [|done].
  induction Hlev as [|k d sets current Hlev [sets0 IH] _ _ _]; [by eexists|].
  exists sets0. revert IH. unfold dict_get. rewrite filter_app.
  by destruct (filter _ d) as [|[? ?] ?].
Qed.

(** The retained itemsets come level by level: smaller itemsets first, no
    itemset twice, each one frequent and of at most [k] items. *)
Lemma levels_retained k d :
  levels k d →
  Forall (λ fs, is_frequent fs ∧ 1 ≤ size (items fs) ≤ k ∧
                items fs ⊆ dom (_transaction_index self)) (retained d) ∧
  StronglySorted (λ a b, size (items a) ≤ size (items b)) (retained d) ∧
  NoDup (map items (retained d)).
Proof.
  intros Hlev.
  induction Hlev as [|k d sets current Hlev (Hall & Hsorted & Hnd) Hget Hcur Hne].
  - unfold retained. rewrite filter_cons_False by (simpl; lia). rewrite filter_nil.
    split_and!; constructor.
  - assert (levels (S k) (d ++ [(S k, current)])) as Hlev' by by apply (levels_next k d sets current).
    destruct (levels_inv _ _ (S k) current Hlev') as [_ [Hcurrent Hndc]];
      [apply elem_of_app; right; left | lia |].
    rewrite retained_snoc. rewrite Forall_forall in Hall, Hcurrent. split_and!.
    + apply Forall_app. split; apply Forall_forall; intros fs Hfs.
      * destruct (Hall fs Hfs) as (? & ? & ?). split_and!; [done | lia.. | done].
      * destruct (Hcurrent fs Hfs) as (? & ? & ?). split_and!; [done | lia.. | done].
    + apply StronglySorted_app. split_and!; [|done|].
      * intros a b Ha Hb. destruct (Hall a Ha) as (_ & ? & _).
        destruct (Hcurrent b Hb) as (_ & ? & _). lia.
      * clear Hndc Hcur Hne Hlev'. induction current as [|fs current IHc]; constructor.
        -- apply IHc. intros fs' ?. apply Hcurrent. by right.
        -- apply Forall_forall. intros fs' Hfs'.
           destruct (Hcurrent fs) as (_ & -> & _); [left|].
           destruct (Hcurrent fs') as (_ & -> & _); [by right | done].
    + rewrite map_app. apply NoDup_app. split_and!; [done| |done].
      intros T (a & -> & Ha)%list_elem_of_fmap (b & Heq & Hb)%list_elem_of_fmap.
      destruct (Hall a Ha) as (_ & ? & _). destruct (Hcurrent b Hb) as (_ & Hsz & _).
      rewrite <- Heq in Hsz. lia.
Qed.
End miner.

(** ** Pruning *)

Section pruning.
Implicit Types (joined : list FrequentSet) (i j : nat).

Lemma lookup_enumerate {A : Type} (l : list A) i k (x : A) :
  enumerate l !! i = Some (k, x) ↔ k = i ∧ l !! i = Some x.
Proof.
  unfold enumerate. rewrite lookup_zip_Some, lookup_seq. split.
  - by intros [[-> _] ?].
  - intros [-> Hx]. split_and!; [done | by eapply lookup_lt_Some | done].
Qed.

Lemma sublist_pair_lookup {A : Type} (l : list A) (a b : A) :
  [a; b] `sublist_of` l ↔ ∃ i j, i < j ∧ l !! i = Some a ∧ l !! j = Some b.
Proof.
  induction l as [|x l IH].
  - rewrite sublist_nil_r. split; [done | by intros (? & ? & ? & ? & ?)].
  - rewrite sublist_cons_r, IH. split.
    + intros [(i & j & ? & ? & ?) | (l' & [= <- <-] & Hb)].
      * exists (S i), (S j). split_and!; [lia | done..].
      * assert (b ∈ l) as [j Hj]%list_elem_of_lookup_1.
        { eapply sublist_subseteq; [done | left]. }
        exists 0, (S j). split_and!; [lia | done..].
    + intros (i & j & Hij & Hi & Hj). destruct j as [|j]; [lia|]. simpl in Hj.
      destruct i as [|i]; simpl in Hi.
      * right. injection Hi as ->. exists [b]. split; [done|].
        apply list_elem_of_lookup_2 in Hj.
        apply list_elem_of_split in Hj as (l1 & l2 & ->).
        apply sublist_inserts_l. apply sublist_skip, sublist_nil_l.
      * left. exists i, j. split_and!; [lia | done..].
Qed.

Lemma elem_of_prune_pair (pruned : gset nat) (pair : list (nat * FrequentSet)) i :
  i ∈ prune_pair pruned pair ↔
  i ∈ pruned ∨ ∃ set1 j set2, pair = [(i, set1); (j, set2)] ∧ items set1 ⊆ items set2.
Proof.
  unfold prune_pair.
  destruct pair as [|[i1 s1] [|[i2 s2] [|? ?]]];
    try (split; [by left | by intros [? | (? & ? & ? & [=] & ?)]]).
  destruct (decide (i1 ∈ pruned)) as [Hin|Hin].
  - rewrite (bool_decide_eq_false_2 (i1 ∉ pruned)) by (by intros ?). simpl.
    split; [by left|]. intros [?|(? & ? & ? & [= -> <- <- <-] & ?)]; done.
  - rewrite (bool_decide_eq_true_2 (i1 ∉ pruned)) by done. simpl.
    destruct (decide (items s1 ⊆ items s2)) as [Hsub|Hsub].
    + rewrite bool_decide_eq_true_2 by done.
      rewrite elem_of_union, elem_of_singleton. split.
      * intros [->|?]; [right; by exists s1, i2, s2 | by left].
      * intros [?|(? & ? & ? & [= -> <- <- <-] & ?)]; [by right | by left].
    + rewrite bool_decide_eq_false_2 by done.
      split; [by left|]. intros [?|(? & ? & ? & [= -> <- <- <-] & ?)]; done.
Qed.

Lemma elem_of_foldl_prune_pair (pairs : list (list (nat * FrequentSet))) (pruned : gset nat) i :
  i ∈ foldl prune_pair pruned pairs ↔
  i ∈ pruned ∨ ∃ set1 j set2, [(i, set1); (j, set2)] ∈ pairs ∧ items set1 ⊆ items set2.
Proof.
  revert pruned. induction pairs as [|pair pairs IH]; intros pruned; simpl.
  - split; [by left|]. by intros [?|(? & ? & ? & ?%elem_of_nil & _)].
  - rewrite IH, elem_of_prune_pair. setoid_rewrite elem_of_cons. naive_solver.
Qed.

(** An object is pruned when its itemset is included in the itemset of an
    object that comes later in the joined list. *)
Lemma elem_of_pruned_sets joined i :
  i ∈ pruned_sets true joined ↔
  ∃ set1 j set2, i < j ∧ joined !! i = Some set1 ∧ joined !! j = Some set2 ∧
                 items set1 ⊆ items set2.
Proof.
  unfold pruned_sets. rewrite elem_of_foldl_prune_pair.
  setoid_rewrite elem_of_combinations. setoid_rewrite sublist_pair_lookup. split.
  - intros [?%elem_of_empty|(s1 & j & s2 & [(a & b & Hab & Ha & Hb) _] & Hsub)]; [done|].
    apply lookup_enumerate in Ha as [-> Ha], Hb as [-> Hb]. by exists s1, b, s2.
  - intros (s1 & j & s2 & Hij & Hi & Hj & Hsub). right. exists s1, j, s2.
    split; [|done]. split; [|done]. exists i, j. by rewrite !lookup_enumerate.
Qed.

Lemma elem_of_cleaned_frequent_sets prune joined fs :
  fs ∈ cleaned_frequent_sets prune joined ↔
  ∃ i, joined !! i = Some fs ∧ i ∉ pruned_sets prune joined.
Proof.
  unfold cleaned_frequent_sets. rewrite list_elem_of_fmap.
  setoid_rewrite list_elem_of_filter. setoid_rewrite list_elem_of_lookup. split.
  - intros ([i fs'] & -> & Hnot & k & Hk). apply lookup_enumerate in Hk as [-> ?].
    by exists k.
  - intros (i & Hi & Hnot). exists (i, fs). split_and!; [done..|].
    exists i. by apply lookup_enumerate.
Qed.

Lemma filter_all {A : Type} (P : A → Prop) `{!∀ x, Decision (P x)} (l : list A) :
  Forall P l → filter P l = l.
Proof.
  induction 1 as [|x l Hx _ IH]; [done|]. by rewrite filter_cons_True, IH.
Qed.

Lemma cleaned_frequent_sets_no_prune joined :
  cleaned_frequent_sets false joined = joined.
Proof.
  unfold cleaned_frequent_sets, pruned_sets.
  rewrite filter_all by (apply Forall_forall; intros ? _; apply not_elem_of_empty).
  unfold enumerate. apply snd_zip. by rewrite length_seq.
Qed.

(** When the joined list holds no itemset twice and lists smaller itemsets
    first, the objects that survive are the maximal ones. *)
Lemma cleaned_frequent_sets_maximal joined fs :
  NoDup (map items joined) →
  StronglySorted (λ a b, size (items a) ≤ size (items b)) joined →
  fs ∈ cleaned_frequent_sets true joined ↔
  fs ∈ joined ∧ ∀ other, other ∈ joined → items fs ⊆ items other → other = fs.
Proof.
  intros Hnd Hsorted. rewrite elem_of_cleaned_frequent_sets. split.
  - intros (i & Hi & Hnot). split; [by eapply list_elem_of_lookup_2|].
    intros other [j Hj]%list_elem_of_lookup_1 Hsub.
    destruct (Nat.lt_trichotomy i j) as [Hlt|[->|Hgt]].
    + exfalso. apply Hnot, elem_of_pruned_sets. by exists fs, j, other.
    + congruence.
    + assert (size (items other) ≤ size (items fs)) as Hsz
        by exact (StronglySorted_lookup _ _ _ _ _ _ Hsorted Hgt Hj Hi).
      assert (items fs = items other) as Heq by by apply set_subseteq_size_eq.
      assert (i = j); [|lia].
      eapply NoDup_lookup; [exact Hnd | by rewrite list_lookup_fmap, Hi |].
      by rewrite list_lookup_fmap, Hj, Heq.
  - intros [[i Hi]%list_elem_of_lookup_1 Hmax]. exists i. split; [done|].
    intros (s1 & j & s2 & Hij & Hi' & Hj & Hsub)%elem_of_pruned_sets.
    rewrite Hi in Hi'. injection Hi' as <-.
    assert (s2 = fs) as -> by (apply Hmax; [by eapply list_elem_of_lookup_2 | done]).
    assert (i = j); [|lia].
    eapply NoDup_lookup; [exact (NoDup_fmap_1 _ _ Hnd) | done..].
Qed.
End pruning.

(** ** get_frequent_item_sets *)

Section get_frequent_item_sets.
Variables (self : Store) (minimum_support : pyfloat) (is_relative_support : bool).

(** What a returned list is made of. *)
Lemma get_frequent_item_sets_Ret prune result :
  get_frequent_item_sets self minimum_support is_relative_support prune = Ret result →
  ∃ threshold k d,
    clamp_minimum_support self minimum_support is_relative_support = Ret threshold ∧
    levels self threshold is_relative_support k d ∧
    (∀ prune',
       get_frequent_item_sets self minimum_support is_relative_support prune'
       = Ret (sorted_reverse FrequentSet_lt (cleaned_frequent_sets prune' (retained d)))) ∧
    result = sorted_reverse FrequentSet_lt (cleaned_frequent_sets prune (retained d)) ∧
    ∃ sets,
      dict_get d k = Ret sets ∧
      current_iteration_frequent_sets self threshold is_relative_support
        (candidate_sets sets k) = Ret [].
Proof.
  unfold get_frequent_item_sets, get_frequent_item_sets_fuel. intros H.
  apply bind_Ret in H as (threshold & Hclamp & H).
  apply bind_Ret in H as (d & Hwhile & H).
  destruct (while_next_iteration_Ret _ _ _ _ _ _ _ (levels_seed _ _ _) Hwhile)
    as (k & sets & Hlev & Hget & Hlast).
  exists threshold, k, d.
  rewrite (levels_dict_del _ _ _ _ _ Hlev) in H. simpl in H. injection H as <-.
  split_and!; [done | done | | done | by exists sets].
  intros prune'.
  by rewrite Hclamp, bind_Ret_l, Hwhile, bind_Ret_l, (levels_dict_del _ _ _ _ _ Hlev).
Qed.

(** A call that returns has passed the clamp. *)
Lemma get_frequent_item_sets_clamped prune result :
  get_frequent_item_sets self minimum_support is_relative_support prune = Ret result →
  ∃ threshold,
    clamp_minimum_support self minimum_support is_relative_support = Ret threshold.
Proof.
  intros (threshold & _ & _ & Hclamp & _)%get_frequent_item_sets_Ret. by exists threshold.
Qed.

(** A call whose clamp raises raises the same exception. *)
Lemma get_frequent_item_sets_Raise_clamp prune e :
  clamp_minimum_support self minimum_support is_relative_support = Raise e →
  get_frequent_item_sets self minimum_support is_relative_support prune = Raise e.
Proof.
  unfold get_frequent_item_sets, get_frequent_item_sets_fuel. by intros ->.
Qed.

Lemma not_minimum_support_mono q rel s r s' r' :
  s ≤ s' → (r <= r')%Q →
  not_minimum_support q rel s r = false → not_minimum_support q rel s' r' = false.
Proof.
  intros Hs Hr. unfold not_minimum_support. destruct rel; rewrite !Qltb_false; intros Hq.
  - by eapply Qle_trans.
  - eapply Qle_trans; [done|]. by apply Qnat_le.
Qed.

(** A non-empty subset of a frequent itemset meets the threshold. *)
Lemma subset_meets_minimum_support q fs (T : gset string) :
  is_frequent self q is_relative_support fs → T ≠ ∅ → T ⊆ items fs →
  meets_minimum_support self q is_relative_support T.
Proof.
  intros [Hsv Hnot] Hne Hsub.
  pose proof Hsv as (_ & Hcount & _)%support_value_Ret.
  destruct (support_value_total self T Hne Hcount) as (s & r & HT).
  exists s, r. split; [done|].
  destruct (support_value_anti self _ _ _ _ _ _ Hsub HT Hsv).
  by eapply not_minimum_support_mono.
Qed.
End get_frequent_item_sets.

(** ** Completeness of the search *)

Section completeness.
Variables (self : Store) (minimum_support : Q) (is_relative_support : bool).
Variables (k : nat) (d : list (nat * list FrequentSet)) (last : list FrequentSet).
Implicit Types (T : gset string) (sets : list FrequentSet).

Local Abbreviation meets_minimum_support :=
  (meets_minimum_support self minimum_support is_relative_support).

Hypothesis Hlevels : levels self minimum_support is_relative_support k d.
Hypothesis Hlast : dict_get d k = Ret last.
Hypothesis Hstop :
  current_iteration_frequent_sets self minimum_support is_relative_support
    (candidate_sets last k) = Ret [].

Lemma meets_minimum_support_subset T T' :
  meets_minimum_support T → T' ≠ ∅ → T' ⊆ T → meets_minimum_support T'.
Proof.
  intros (s & r & Hsv & Hnot) Hne Hsub.
  apply (subset_meets_minimum_support self is_relative_support minimum_support
           (mkFrequentSet T s r)); [by split | done..].
Qed.

Lemma levels_seed_elem_of : (0, initial_set self is_relative_support) ∈ d.
Proof.
  generalize Hlevels. generalize k, d.
  induction 1; [left | apply elem_of_app; by left].
Qed.

(** A candidate that meets the threshold is retained at the next level; in
    particular the loop has not stopped before that level. *)
Lemma candidate_retained j sets T :
  (j, sets) ∈ d → T ∈ candidate_sets sets j → meets_minimum_support T →
  ∃ next, (S j, next) ∈ d ∧ T ∈ map items next.
Proof.
  intros Hin Hcand Hmeets.
  pose proof (levels_key_bound _ _ _ _ _ _ _ Hlevels Hin) as Hjk.
  destruct (decide (j = k)) as [->|Hne].
  - exfalso. assert (sets = last) as ->.
    { apply (dict_get_unique _ _ _ (levels_keys_NoDup _ _ _ _ _ Hlevels)) in Hin. congruence. }
    apply current_iteration_frequent_sets_Ret in Hstop as (_ & _ & Hall).
    by apply Hall, elem_of_nil in Hcand.
  - assert (S j ∈ map fst d) as ([j' next] & Hj' & Hnext)%list_elem_of_fmap.
    { rewrite (levels_keys _ _ _ _ _ Hlevels), elem_of_seq. lia. }
    simpl in Hj'. subst j'. exists next. split; [done|].
    destruct (levels_consecutive _ _ _ _ _ _ _ _ Hlevels Hin Hnext) as [Hcur _].
    apply current_iteration_frequent_sets_Ret in Hcur as (_ & _ & Hall). by apply Hall.
Qed.

Lemma level_unique j sets sets' : (j, sets) ∈ d → (j, sets') ∈ d → sets = sets'.
Proof.
  intros H1 H2. pose proof (levels_keys_NoDup _ _ _ _ _ Hlevels) as Hnd.
  apply (dict_get_unique _ _ _ Hnd) in H1, H2. congruence.
Qed.

(** Every itemset made of indexed items that meets the threshold is found,
    at the level of its size. *)
Lemma levels_complete n T :
  size T = S n → T ⊆ dom (_transaction_index self) → meets_minimum_support T →
  ∃ sets, (S n, sets) ∈ d ∧ T ∈ map items sets.
Proof.
  revert T. induction n as [|n IH]; intros T Hsize Hdom Hmeets.
  - apply (candidate_retained 0 (initial_set self is_relative_support));
      [apply levels_seed_elem_of | | done].
    apply elem_of_candidate_sets. rewrite unique_items_initial_set.
    split_and!; [done | by rewrite Hsize | lia].
  - assert (∀ T', T' ⊆ T → size T' = S n →
                  ∃ sets, (S n, sets) ∈ d ∧ T' ∈ map items sets) as Hsubsets.
    { intros T' Hsub Hsize'. apply IH; [done | set_solver |].
      apply (meets_minimum_support_subset T); [done| |done].
      intros ->. by rewrite size_empty in Hsize'. }
    destruct (size_pos_elem_of T) as [x Hx]; [lia|].
    assert (size (T ∖ {[x]}) = S n) as Hsize_x.
    { rewrite size_difference by set_solver. rewrite size_singleton. lia. }
    destruct (Hsubsets (T ∖ {[x]})) as (sets & Hsets & _); [set_solver | done |].
    apply (candidate_retained (S n) sets); [done | | done].
    apply elem_of_candidate_sets. split_and!.
    + intros y Hy. destruct (size_pos_elem_of (T ∖ {[y]})) as [z Hz].
      { rewrite size_difference by set_solver. rewrite size_singleton. lia. }
      destruct (Hsubsets (T ∖ {[z]})) as (sets' & Hsets' & Hin); [set_solver | |].
      { rewrite size_difference by set_solver. rewrite size_singleton. lia. }
      rewrite (level_unique _ _ _ Hsets Hsets').
      apply list_elem_of_fmap in Hin as (fs & Heq & Hfs).
      apply elem_of_unique_items. exists fs. split; [done|]. rewrite <- Heq. set_solver.
    + lia.
    + intros _ T' Hsub Hsize'. destruct (Hsubsets T' Hsub Hsize') as (sets' & Hsets' & Hin).
      by rewrite (level_unique _ _ _ Hsets Hsets').
Qed.
End completeness.

(** The fuel given to the loop is never used up: the function returns a list
    or raises. *)
Theorem get_frequent_item_sets_terminates (self : Store) (minimum_support : pyfloat)
    (is_relative_support prune : bool) :
  get_frequent_item_sets self minimum_support is_relative_support prune ≠ OutOfFuel.
Proof.
  unfold get_frequent_item_sets, get_frequent_item_sets_fuel.
  destruct (clamp_minimum_support_outcome self minimum_support is_relative_support)
    as [[threshold ->]|(_ & e & _ & ->)]; [|done].
  rewrite bind_Ret_l.
  pose proof (while_next_iteration_no_timeout self threshold is_relative_support
                (2 + length (_get_all_items self)) 0 _ (levels_seed _ _ _)) as Hfuel.
  destruct (while_next_iteration _ _ _ _ _ _) as [d| |] eqn:Hwhile; simpl; [|done|].
  - destruct (while_next_iteration_Ret _ _ _ _ _ _ _ (levels_seed _ _ _) Hwhile)
      as (k & sets & Hlev & _ & _).
    by rewrite (levels_dict_del _ _ _ _ _ Hlev).
  - exfalso. apply Hfuel; [|done]. unfold _get_all_items, size, set_size. simpl. lia.
Qed.

(** With at least one transaction the loop raises nothing either: once the
    threshold has passed the clamp the function returns a list. *)
Lemma current_iteration_frequent_sets_total (self : Store) (minimum_support : Q)
    (is_relative_support : bool) (candidates : list (gset string)) :
  _transaction_count self ≠ 0 → Forall (λ candidate, candidate ≠ ∅) candidates →
  ∃ current,
    current_iteration_frequent_sets self minimum_support is_relative_support candidates
    = Ret current.
Proof.
  intros Hcount. induction 1 as [|c rest Hc _ [later IH]]; simpl; [by eexists|].
  destruct (support_value_total self c Hc Hcount) as (s & r & ->). simpl.
  rewrite IH. simpl. destruct (not_minimum_support _ _ _ _); by eexists.
Qed.

Lemma while_next_iteration_no_raise (self : Store) (minimum_support : Q)
    (is_relative_support : bool) (fuel k : nat) (d : list (nat * list FrequentSet)) (e : exn) :
  _transaction_count self ≠ 0 →
  levels self minimum_support is_relative_support k d →
  while_next_iteration fuel self minimum_support is_relative_support k d ≠ Raise e.
Proof.
  intros Hcount. revert k d. induction fuel as [|fuel IH]; intros k d Hlev; simpl; [done|].
  assert (k ∈ map fst d) as ([k' sets] & Hk' & Hin)%list_elem_of_fmap.
  { rewrite (levels_keys _ _ _ _ _ Hlev), elem_of_seq. lia. }
  simpl in Hk'. subst k'.
  rewrite (dict_get_unique _ _ _ (levels_keys_NoDup _ _ _ _ _ Hlev) Hin). simpl.
  destruct (current_iteration_frequent_sets_total self minimum_support is_relative_support
              (candidate_sets sets k) Hcount) as [current Hcur].
  { apply Forall_forall. intros c (_ & Hsize & _)%elem_of_candidate_sets ->.
    rewrite size_empty in Hsize. lia. }
  rewrite Hcur. simpl. case_bool_decide as Hlen; [|done].
  rewrite Nat.add_1_r. apply IH.
  apply (levels_next _ _ _ k d sets current); [|by apply dict_get_unique;
    [eapply levels_keys_NoDup|]|done|]; [done|]. intros ->. simpl in Hlen. lia.
Qed.

Theorem get_frequent_item_sets_returns (self : Store) (minimum_support : pyfloat)
    (is_relative_support prune : bool) (threshold : Q) :
  clamp_minimum_support self minimum_support is_relative_support = Ret threshold →
  _transaction_count self ≠ 0 →
  ∃ result,
    get_frequent_item_sets self minimum_support is_relative_support prune = Ret result.
Proof.
  intros Hclamp Hcount.
  pose proof (get_frequent_item_sets_terminates self minimum_support is_relative_support prune)
    as Hterm.
  revert Hterm. unfold get_frequent_item_sets, get_frequent_item_sets_fuel.
  rewrite Hclamp, bind_Ret_l.
  pose proof (λ e, while_next_iteration_no_raise self threshold is_relative_support
                (2 + length (_get_all_items self)) 0 _ e Hcount (levels_seed _ _ _)) as Hraise.
  destruct (while_next_iteration _ _ _ _ _ _) as [d|e|] eqn:Hwhile; simpl; [| |done].
  - destruct (while_next_iteration_Ret _ _ _ _ _ _ _ (levels_seed _ _ _) Hwhile)
      as (k & sets & Hlev & _ & _).
    rewrite (levels_dict_del _ _ _ _ _ Hlev). simpl. by eexists.
  - by destruct (Hraise e).
Qed.

(** C3. Downward closure.  Take the levels the loop has built when it stops.
    From the second turn on, a candidate whose support is computed at turn [k]
    has [k + 1] items and each of its subsets of [k] items is an itemset of
    level [k].  Consequently, for an itemset [fs] retained at some level, every
    non-empty subset [T] of [fs] that was a candidate meets the support
    threshold, and is retained at its own level. *)
Theorem apriori_downward_closure (self : Store) (minimum_support : Q)
    (is_relative_support : bool) (fuel : nat) (d : list (nat * list FrequentSet)) :
  while_next_iteration fuel self minimum_support is_relative_support 0
    [(0, initial_set self is_relative_support)] = Ret d →
  (∀ k sets candidate,
     (k, sets) ∈ d → 1 ≤ k → candidate ∈ candidate_sets sets k →
     size candidate = k + 1 ∧
     ∀ T : gset string, T ⊆ candidate → size T = k → T ∈ map items sets) ∧
  (∀ k sets fs j earlier (T : gset string),
     (k, sets) ∈ d → 1 ≤ k → fs ∈ sets →
     (j, earlier) ∈ d → T ∈ candidate_sets earlier j →
     T ≠ ∅ → T ⊆ items fs →
     meets_minimum_support self minimum_support is_relative_support T ∧
     ∃ next, (j + 1, next) ∈ d ∧ T ∈ map items next).
Proof.
  intros Hwhile.
  destruct (while_next_iteration_Ret _ _ _ _ _ _ _ (levels_seed _ _ _) Hwhile)
    as (k' & sets' & Hlev & _ & _).
  split.
  - intros k sets candidate Hin Hk (_ & Hsize & Hsubsets)%elem_of_candidate_sets.
    split; [done|]. apply Hsubsets. lia.
  - intros k sets fs j earlier T Hin Hk HS Hearlier Hcand Hne Hsub.
    destruct (levels_inv _ _ _ _ _ _ _ Hlev Hin) as [_ Hok].
    destruct (Hok Hk) as [Hall _]. rewrite Forall_forall in Hall.
    destruct (Hall fs HS) as (Hfreq & Hsize & _).
    assert (meets_minimum_support self minimum_support is_relative_support T) as Hmeets
      by by eapply subset_meets_minimum_support.
    split; [done|].
    apply elem_of_candidate_sets in Hcand as HT. destruct HT as (_ & HsizeT & _).
    assert (S j ∈ map fst d) as ([j' next] & Hj' & Hnext)%list_elem_of_fmap.
    { rewrite (levels_keys _ _ _ _ _ Hlev), elem_of_seq.
      apply subseteq_size in Hsub. apply (levels_key_bound _ _ _ _ _ _ _ Hlev) in Hin. lia. }
    simpl in Hj'. subst j'. exists next. rewrite Nat.add_1_r. split; [done|].
    destruct (levels_consecutive _ _ _ _ _ _ _ _ Hlev Hearlier Hnext) as [Hcur _].
    apply current_iteration_frequent_sets_Ret in Hcur as (_ & _ & Hall').
    by apply Hall'.
Qed.

Lemma apriori_downward_closure_witness :
  let d :=
    match while_next_iteration 5 scenario_1_store (1#2) true 0
            [(0, initial_set scenario_1_store true)] with
    | Ret d => d
    | _ => []
    end in
  (∀ k sets candidate,
     (k, sets) ∈ d → 1 ≤ k → candidate ∈ candidate_sets sets k →
     size candidate = k + 1 ∧
     ∀ T : gset string, T ⊆ candidate → size T = k → T ∈ map items sets) ∧
  (∀ k sets fs j earlier (T : gset string),
     (k, sets) ∈ d → 1 ≤ k → fs ∈ sets →
     (j, earlier) ∈ d → T ∈ candidate_sets earlier j →
     T ≠ ∅ → T ⊆ items fs →
     meets_minimum_support scenario_1_store (1#2) true T ∧
     ∃ next, (j + 1, next) ∈ d ∧ T ∈ map items next).
Proof.
  intros d. apply (apriori_downward_closure scenario_1_store (1#2) true 5 d).
  vm_compute. reflexivity.
Defined.

(** C2. With [prune=True] the returned itemsets are the maximal frequent
    itemsets.  The itemsets retained at all levels (which are what
    [prune=False] returns, each itemset once) are the frequent ones: the
    non-empty sets of indexed items that meet the threshold.  A returned
    itemset is included in no other retained itemset, and every retained
    itemset included in no other one is returned.  The threshold is the one
    the clamp of lines 162-169 yields; the call has passed it, whatever
    [float] the caller gave. *)
Theorem prune_keeps_maximal (self : Store) (minimum_support : pyfloat)
    (is_relative_support : bool) (result : list FrequentSet) :
  get_frequent_item_sets self minimum_support is_relative_support true = Ret result →
  ∃ threshold all_retained,
    clamp_minimum_support self minimum_support is_relative_support = Ret threshold ∧
    get_frequent_item_sets self minimum_support is_relative_support false = Ret all_retained ∧
    NoDup (map items all_retained) ∧
    (∀ T : gset string,
       T ∈ map items all_retained ↔
       T ≠ ∅ ∧ T ⊆ dom (_transaction_index self) ∧
       meets_minimum_support self threshold is_relative_support T) ∧
    ∀ fs, fs ∈ result ↔
          fs ∈ all_retained ∧
          ∀ other, other ∈ all_retained → items fs ⊆ items other → other = fs.
Proof.
  intros (threshold & k & d & Hclamp & Hlev & Hall & -> & sets & Hget & Hlast)
    %get_frequent_item_sets_Ret.
  destruct (levels_retained _ _ _ _ _ Hlev) as (Hfreq & Hsorted & Hnd).
  exists threshold. eexists. split; [done|]. split; [apply Hall|].
  assert (map items (sorted_reverse FrequentSet_lt (cleaned_frequent_sets false (retained d)))
          ≡ₚ map items (retained d)) as Hperm.
  { apply fmap_Permutation.
    by rewrite sorted_reverse_Permutation, cleaned_frequent_sets_no_prune. }
  split_and!.
  - by eapply NoDup_Permutation_proper.
  - intros T. rewrite Hperm. split.
    + intros (fs & -> & Hfs)%list_elem_of_fmap. rewrite Forall_forall in Hfreq.
      destruct (Hfreq fs Hfs) as (Hfs_freq & [Hsize _] & Hdom).
      split_and!; [|done | by apply is_frequent_meets].
      intros Hempty. rewrite Hempty, size_empty in Hsize. lia.
    + intros (Hne & Hdom & Hmeets).
      destruct (size T) as [|n] eqn:Hsize;
        [by apply size_empty_iff, leibniz_equiv in Hsize|].
      destruct (levels_complete _ _ _ _ _ _ Hlev Hget Hlast n T Hsize Hdom Hmeets)
        as (sets' & Hsets' & (fs & -> & Hfs)%list_elem_of_fmap).
      apply list_elem_of_fmap. exists fs. split; [done|].
      apply elem_of_retained. exists (S n), sets'. split_and!; [lia | done..].
  - intros fs. rewrite cleaned_frequent_sets_no_prune.
    setoid_rewrite elem_of_sorted_reverse. by apply cleaned_frequent_sets_maximal.
Qed.

Lemma prune_keeps_maximal_witness :
  let result :=
    match get_frequent_item_sets scenario_1_store (1#2) true true with
    | Ret result => result
    | _ => []
    end in
  ∃ threshold all_retained,
    clamp_minimum_support scenario_1_store (1#2) true = Ret threshold ∧
    get_frequent_item_sets scenario_1_store (1#2) true false = Ret all_retained ∧
    NoDup (map items all_retained) ∧
    (∀ T : gset string,
       T ∈ map items all_retained ↔
       T ≠ ∅ ∧ T ⊆ dom (_transaction_index scenario_1_store) ∧
       meets_minimum_support scenario_1_store threshold true T) ∧
    ∀ fs, fs ∈ result ↔
          fs ∈ all_retained ∧
          ∀ other, other ∈ all_retained → items fs ⊆ items other → other = fs.
Proof.
  intros result. apply (prune_keeps_maximal scenario_1_store (1#2) true result).
  vm_compute. reflexivity.
Defined.

(** ** The fragment pool *)

Section pool.
Variable self : Store.
Local Abbreviation pool_ok := (pool_ok self).
Implicit Types (frequent_item_sets pool : list FrequentSet) (T : gset string).
Implicit Types (state : gset (gset string) * list FrequentSet).

Lemma maximum_cardinality_upper frequent_item_sets item_set :
  item_set ∈ frequent_item_sets →
  size (items item_set) ≤ maximum_cardinality frequent_item_sets.
Proof.
  unfold maximum_cardinality. intros Hin.
  rewrite bool_decide_eq_true_2 by (destruct frequent_item_sets; [by apply elem_of_nil in Hin | simpl; lia]).
  induction Hin as [x l|x y l Hin IH]; simpl; lia.
Qed.

Lemma maximum_cardinality_attained frequent_item_sets :
  frequent_item_sets ≠ [] →
  ∃ item_set, item_set ∈ frequent_item_sets ∧
              size (items item_set) = maximum_cardinality frequent_item_sets.
Proof.
  unfold maximum_cardinality. intros Hne.
  rewrite bool_decide_eq_true_2 by (destruct frequent_item_sets; [done | simpl; lia]).
  induction frequent_item_sets as [|x l IH]; [done|]. simpl.
  destruct l as [|y l].
  - exists x. split; [left | simpl; lia].
  - destruct IH as (z & Hz & Hsz); [done|].
    destruct (Nat.max_spec (size (items x))
                (foldr Nat.max 0 (map (λ item_set, size (items item_set)) (y :: l))))
      as [[_ ->]|[_ ->]].
    + exists z. split; [by right | done].
    + exists x. split; [left | done].
Qed.

(** The subsets tried: those of 1 to [maximum_cardinality - 1] items of
    some input itemset. *)
Lemma elem_of_set_attempts frequent_item_sets T :
  T ∈ set_attempts frequent_item_sets ↔
  ∃ item_set, item_set ∈ frequent_item_sets ∧ T ⊆ items item_set ∧
              1 ≤ size T ≤ maximum_cardinality frequent_item_sets - 1.
Proof.
  unfold set_attempts. rewrite list_elem_of_bind. split.
  - intros (item_set & Hin & Hitem_set). exists item_set. split; [done|].
    apply list_elem_of_bind in Hin as (k & Hin & Hk%elem_of_seq).
    apply list_elem_of_bind in Hin as (sub & ->%list_elem_of_singleton & Hsub).
    apply combination_of_elements in Hsub as (? & -> & _). split; [done | lia].
  - intros (item_set & Hitem_set & Hsub & Hsize). exists item_set. split; [|done].
    apply list_elem_of_bind. exists (size T). split; [|apply elem_of_seq; lia].
    destruct (subset_is_combination _ _ Hsub) as (sub & ? & <-).
    apply list_elem_of_bind. exists sub. split; [by apply list_elem_of_singleton | done].
Qed.

Lemma store_subset_Ret state state' T :
  pool_ok state → store_subset self state T = Ret state' →
  pool_ok state' ∧
  ∀ T', T' ∈ map items state'.2 ↔ T' ∈ map items state.2 ∨ T' = T.
Proof.
  destruct state as [seen pool]. intros (Hseen & Hnd & Hsv). unfold store_subset.
  case_bool_decide as Hnew; simpl in *.
  - intros H. apply bind_Ret in H as ([s r] & Hsup & [= <-]). simpl. split.
    + split_and!; simpl.
      * intros T'.
        rewrite elem_of_union, elem_of_singleton, map_app, elem_of_app, Hseen.
        simpl. rewrite list_elem_of_singleton. tauto.
      * rewrite map_app. apply NoDup_app. split_and!; [done | | apply NoDup_singleton].
        intros T' HT' ->%list_elem_of_singleton. by apply Hnew, Hseen.
      * apply Forall_app. split; [done|]. by repeat constructor.
    + intros T'. rewrite map_app, elem_of_app. simpl. by rewrite list_elem_of_singleton.
  - intros [= <-]. simpl. split; [done|]. intros T'. split; [by left|].
    intros [?| ->]; [done|]. by apply Hseen.
Qed.

Lemma foldM_store_subset_Ret attempts state state' :
  pool_ok state → foldM (store_subset self) state attempts = Ret state' →
  pool_ok state' ∧
  ∀ T, T ∈ map items state'.2 ↔ T ∈ map items state.2 ∨ T ∈ attempts.
Proof.
  revert state. induction attempts as [|T attempts IH]; intros state Hok; simpl.
  - intros [= <-]. split; [done|]. intros T. split; [by left | by intros [?|?%elem_of_nil]].
  - intros H. apply bind_Ret in H as (state1 & Hstep & H).
    destruct (store_subset_Ret _ _ _ Hok Hstep) as [Hok1 Hin1].
    destruct (IH _ Hok1 H) as [Hok' Hin']. split; [done|].
    intros T'. rewrite Hin', Hin1, elem_of_cons. tauto.
Qed.

Lemma global_item_subsets_support_Ret frequent_item_sets pool :
  global_item_subsets_support self frequent_item_sets = Ret pool →
  NoDup (map items pool) ∧
  (∀ T, T ∈ map items pool ↔ T ∈ set_attempts frequent_item_sets) ∧
  Forall (λ fs, __support_value self (items fs)
                = Ret (support fs, relative_support fs)) pool.
Proof.
  unfold global_item_subsets_support. case_bool_decide as Hmax.
  - intros H. apply bind_Ret in H as (state & Hfold & [= <-]).
    apply foldM_store_subset_Ret in Hfold as [(_ & ? & ?) Hin].
    + split_and!; [done | | done]. intros T. rewrite Hin. simpl.
      split; [by intros [?%elem_of_nil|?] | by right].
    + split_and!; simpl; [|constructor..]. intros T. by rewrite elem_of_empty, elem_of_nil.
  - intros [= <-]. split_and!; [constructor | | constructor].
    intros T. rewrite elem_of_set_attempts. simpl. split; [by intros ?%elem_of_nil|].
    intros (? & _ & _ & ?). lia.
Qed.
End pool.

(** With at least one transaction the pool is computed. *)
Lemma global_item_subsets_support_total (self : Store) (frequent_item_sets : list FrequentSet) :
  _transaction_count self ≠ 0 →
  ∃ pool, global_item_subsets_support self frequent_item_sets = Ret pool.
Proof.
  intros Hcount. unfold global_item_subsets_support. case_bool_decide; [|by eexists].
  assert (Forall (λ T : gset string, T ≠ ∅) (set_attempts frequent_item_sets)) as Hne.
  { apply Forall_forall. intros T (_ & _ & _ & Hsize & _)%elem_of_set_attempts ->.
    rewrite size_empty in Hsize. lia. }
  assert (∀ state, ∃ state',
            foldM (store_subset self) state (set_attempts frequent_item_sets) = Ret state')
    as Hfold.
  { induction Hne as [|T attempts HT _ IH]; intros state; simpl; [by eexists|].
    assert (∃ state1, store_subset self state T = Ret state1) as [state1 ->].
    { unfold store_subset. destruct state as [seen pool]. case_bool_decide; [|by eexists].
      destruct (support_value_total self T HT Hcount) as (s & r & ->). by eexists. }
    simpl. apply IH. }
  destruct (Hfold (∅, [])) as [state ->]. by eexists.
Qed.

(** C4 (as amended). The pool holds exactly the distinct subsets of 1 to
    [max_size - 1] items of the input itemsets, each once, with the support
    the support query gives; [max_size] is the largest input size.  (The
    subsets need not be proper: an input itemset smaller than [max_size] is
    itself in the pool.) *)
Theorem global_pool_spec (self : Store) (frequent_item_sets pool : list FrequentSet) :
  global_item_subsets_support self frequent_item_sets = Ret pool →
  NoDup (map items pool) ∧
  (∀ T : gset string,
     T ∈ map items pool ↔
     ∃ item_set, item_set ∈ frequent_item_sets ∧ T ⊆ items item_set ∧
                 1 ≤ size T ≤ maximum_cardinality frequent_item_sets - 1) ∧
  Forall (λ fs, __support_value self (items fs) = Ret (support fs, relative_support fs)) pool ∧
  (∀ item_set, item_set ∈ frequent_item_sets →
               size (items item_set) ≤ maximum_cardinality frequent_item_sets) ∧
  (frequent_item_sets ≠ [] →
   ∃ item_set, item_set ∈ frequent_item_sets ∧
               size (items item_set) = maximum_cardinality frequent_item_sets).
Proof.
  intros (Hnd & Hin & Hsv)%global_item_subsets_support_Ret.
  split_and!; [done | | done | apply maximum_cardinality_upper | apply maximum_cardinality_attained].
  intros T. by rewrite Hin, elem_of_set_attempts.
Qed.

(** The input above is what the miner returns for that store at relative
    threshold 1/2 with pruning. *)
Example scenario_pool_input_mined :
  get_frequent_item_sets scenario_pool_store (1#2) true true = Ret scenario_pool_input.
Proof. vm_compute. reflexivity. Qed.

Lemma global_pool_spec_witness :
  let pool :=
    match global_item_subsets_support scenario_pool_store scenario_pool_input with
    | Ret pool => pool
    | _ => []
    end in
  NoDup (map items pool) ∧
  (∀ T : gset string,
     T ∈ map items pool ↔
     ∃ item_set, item_set ∈ scenario_pool_input ∧ T ⊆ items item_set ∧
                 1 ≤ size T ≤ maximum_cardinality scenario_pool_input - 1) ∧
  Forall (λ fs, __support_value scenario_pool_store (items fs)
                = Ret (support fs, relative_support fs)) pool ∧
  (∀ item_set, item_set ∈ scenario_pool_input →
               size (items item_set) ≤ maximum_cardinality scenario_pool_input) ∧
  (scenario_pool_input ≠ [] →
   ∃ item_set, item_set ∈ scenario_pool_input ∧
               size (items item_set) = maximum_cardinality scenario_pool_input).
Proof.
  intros pool. apply (global_pool_spec scenario_pool_store scenario_pool_input pool).
  vm_compute. reflexivity.
Defined.

(** C4 as stated fails: the pool holds a fragment that is a proper subset of
    no input itemset, namely the input itemset [{d, e}] itself, which is
    smaller than the largest input itemset. *)
Lemma pool_holds_improper_subset :
  ∃ pool,
    global_item_subsets_support scenario_pool_store scenario_pool_input = Ret pool ∧
    ({["d"; "e"]} : gset string) ∈ map items pool ∧
    ¬ ∃ item_set, item_set ∈ scenario_pool_input ∧
                  ({["d"; "e"]} : gset string) ⊂ items item_set.
Proof.
  eexists. split; [vm_compute; reflexivity|]. split.
  - apply (bool_decide_unpack _). by vm_compute.
  - intros (item_set & Hin & Hsub). unfold scenario_pool_input in Hin.
    apply elem_of_cons in Hin as [->|Hin]; [by destruct Hsub as [_ []]|].
    apply list_elem_of_singleton in Hin as ->. destruct Hsub as [Hsub _].
    simpl in Hsub. specialize (Hsub "d"). revert Hsub.
    apply (bool_decide_unpack _). by vm_compute.
Qed.

(** ** Rule derivation *)

Section rules.
Variable self : Store.
Variables minimum_confidence minimum_lift : Q.
Implicit Types (pool : list FrequentSet) (a b : FrequentSet).

Lemma elem_of_enumerate {A : Type} (l : list A) (p : nat * A) :
  p ∈ enumerate l ↔ l !! p.1 = Some p.2.
Proof.
  rewrite list_elem_of_lookup. destruct p as [k x]. simpl. split.
  - by intros [i [-> ?]%lookup_enumerate].
  - intros ?. exists k. by apply lookup_enumerate.
Qed.

Lemma elem_of_global_pairs pool a b :
  (a, b) ∈ global_pairs pool ↔
  ∃ i j, i ≠ j ∧ pool !! i = Some a ∧ pool !! j = Some b.
Proof.
  unfold global_pairs. rewrite list_elem_of_bind. split.
  - intros ([i a'] & Hin & Ha%elem_of_enumerate).
    apply list_elem_of_bind in Hin as ([j b'] & Hin & Hb%elem_of_enumerate).
    simpl in *. case_bool_decide; [|by apply elem_of_nil in Hin].
    apply list_elem_of_singleton in Hin as [= -> ->]. by exists i, j.
  - intros (i & j & Hij & Ha & Hb). exists (i, a). split; [|by apply elem_of_enumerate].
    apply list_elem_of_bind. exists (j, b). split; [|by apply elem_of_enumerate].
    simpl. rewrite bool_decide_eq_true_2 by done. by left.
Qed.

Lemma global_pairs_swap pool a b : (a, b) ∈ global_pairs pool → (b, a) ∈ global_pairs pool.
Proof.
  rewrite !elem_of_global_pairs. intros (i & j & ? & ? & ?). by exists j, i.
Qed.

Lemma global_pairs_elem_of pool a b : (a, b) ∈ global_pairs pool → a ∈ pool ∧ b ∈ pool.
Proof.
  intros (i & j & _ & ? & ?)%elem_of_global_pairs.
  split; by eapply list_elem_of_lookup_2.
Qed.

Lemma Qdiv_nonneg x y : (0 <= x)%Q → (0 <= y)%Q → (0 <= x / y)%Q.
Proof.
  intros Hx Hy. apply Qmult_le_0_compat; [done|]. by apply Qinv_le_0_compat.
Qed.

Lemma Qdiv_le_1 x y : (0 <= x)%Q → (x <= y)%Q → ¬ (y == 0)%Q → (x / y <= 1)%Q.
Proof.
  intros Hx Hxy Hy. rewrite <- (Qmult_inv_r y Hy).
  apply Qmult_le_compat_r; [done|]. apply Qinv_le_0_compat. by eapply Qle_trans.
Qed.

(** A pair of pool fragments either yields a result or divides by zero;
    nothing else is raised. *)
Lemma rule_of_pair_cases a b :
  fragment self a → fragment self b →
  (size (items a ∩ items b) ≠ 0 ∧
     rule_of_pair self minimum_confidence minimum_lift (a, b) = Ret None) ∨
  (size (items a ∩ items b) = 0 ∧ (support a = 0 ∨ support b = 0) ∧
     rule_of_pair self minimum_confidence minimum_lift (a, b) = Raise ZeroDivisionError) ∨
  (size (items a ∩ items b) = 0 ∧ support a ≠ 0 ∧ support b ≠ 0 ∧
     ∃ support_a_union_b,
       support_a_union_b ≤ support a ∧
       rule_of_pair self minimum_confidence minimum_lift (a, b) =
       let rule_support := (Qnat support_a_union_b / Qnat (support a))%Q in
       let lift := (Qnat support_a_union_b
                    / (Qnat (support a) * relative_support b))%Q in
       if Qle_bool minimum_confidence rule_support && Qle_bool minimum_lift lift
       then Ret (Some (mkAssociationRule (items a) (items b) rule_support lift))
       else Ret None).
Proof.
  intros Ha Hb. unfold rule_of_pair. case_bool_decide as Hdisj; [|by left]. right.
  pose proof Ha as (Hne & Hcount & _ & _)%support_value_Ret.
  pose proof Hb as (_ & _ & _ & Hrel)%support_value_Ret.
  destruct (support_value_total self (items a ∪ items b)) as (sab & rab & Hab);
    [set_solver | done |].
  rewrite Hab. simpl.
  destruct (support_value_anti self (items a) (items a ∪ items b) _ _ _ _
              (union_subseteq_l _ _) Ha Hab) as [Hle _].
  unfold py_div.
  destruct (Qeq_bool (Qnat (support a)) 0) eqn:Hza.
  { left. apply Qeq_bool_iff, Qnat_eq_0 in Hza. by split_and!; [|left|]. }
  apply Qeq_bool_neq in Hza. rewrite Qnat_eq_0 in Hza. simpl.
  destruct (Qeq_bool (Qnat (support a) * relative_support b) 0) eqn:Hzb.
  { left. split_and!; [done| |done]. right.
    apply Qeq_bool_iff in Hzb. rewrite Hrel in Hzb.
    apply Qmult_integral in Hzb as [Hz|Hz]; [by apply Qnat_eq_0 in Hz|].
    apply Qmult_integral in Hz as [Hz|Hz]; [by apply Qnat_eq_0 in Hz|].
    exfalso. apply Hcount, Qnat_eq_0.
    rewrite <- (Qinv_involutive (Qnat (_transaction_count self))), Hz. reflexivity. }
  right. apply Qeq_bool_neq in Hzb. split_and!; [done | done | | by exists sab].
  intros Hb0. apply Hzb. rewrite Hrel, Hb0. change (Qnat 0) with 0%Q.
  unfold Qdiv. by rewrite Qmult_0_l, Qmult_0_r.
Qed.
End rules.

Lemma mapM_Raise {A B : Type} (f : A → result B) (l : list A) (e : exn) :
  Forall (λ x, (∃ y, f x = Ret y) ∨ f x = Raise e) l →
  Exists (λ x, f x = Raise e) l →
  mapM f l = Raise e.
Proof.
  induction 1 as [|x l [[y Hy]|Hx] _ IH]; intros Hex; simpl.
  - by apply Exists_nil in Hex.
  - rewrite Hy; simpl. apply Exists_cons in Hex as [Hx|Hex]; [congruence|].
    by rewrite (IH Hex).
  - by rewrite Hx.
Qed.

Lemma Forall2_elem_of_r {A B : Type} (P : A → B → Prop) (l : list A) (k : list B) (y : B) :
  Forall2 P l k → y ∈ k → ∃ x, x ∈ l ∧ P x y.
Proof.
  induction 1 as [|x y' l k Hxy _ IH]; [by intros ?%elem_of_nil|].
  intros [->|Hy]%elem_of_cons.
  - exists x. split; [left | done].
  - destruct (IH Hy) as (x' & ? & ?). exists x'. split; [by right | done].
Qed.

Section association_rules.
Variable self : Store.
Variables minimum_confidence minimum_lift : Q.
Implicit Types (frequent_item_sets pool : list FrequentSet).

Lemma association_rules_Ret frequent_item_sets rules :
  association_rules self frequent_item_sets minimum_confidence minimum_lift = Ret rules →
  ∃ pool found,
    global_item_subsets_support self frequent_item_sets = Ret pool ∧
    Forall2 (λ pair rule, rule_of_pair self minimum_confidence minimum_lift pair = Ret rule)
            (global_pairs pool) found ∧
    rules = sorted_reverse AssociationRule_lt
              (sorted_reverse confidence_lt (omap id found)).
Proof.
  unfold association_rules. intros H.
  apply bind_Ret in H as (pool & Hpool & H). apply bind_Ret in H as (found & Hfound & H).
  exists pool, found. split_and!; [done | by apply mapM_Ret | by injection H as <-].
Qed.

(** Sorted by confidence, the rules are left as they are by the second
    sort: no rule is [<] a rule of greater or equal confidence. *)
Lemma sorted_reverse_AssociationRule_lt_id (l : list AssociationRule) :
  StronglySorted (λ r1 r2, (confidence r2 <= confidence r1)%Q) l →
  sorted_reverse AssociationRule_lt l = l.
Proof.
  intros Hs. unfold sorted_reverse. rewrite sorted_no_inversion; [apply reverse_involutive|].
  apply StronglySorted_reverse in Hs. revert Hs. generalize (reverse l). clear l.
  induction 1 as [|r l _ IH Hr]; constructor; [done|].
  eapply Forall_impl; [done|]. unfold flip, AssociationRule_lt. intros r' Hle.
  apply andb_false_intro1. by apply Qltb_false.
Qed.

Lemma pool_fragments frequent_item_sets pool a b :
  global_item_subsets_support self frequent_item_sets = Ret pool →
  (a, b) ∈ global_pairs pool → fragment self a ∧ fragment self b.
Proof.
  intros (_ & _ & Hsv)%global_item_subsets_support_Ret [Ha Hb]%global_pairs_elem_of.
  rewrite Forall_forall in Hsv. split; by apply Hsv.
Qed.
End association_rules.

(** C1 (as amended). [association_rules] has no guard on a zero support.  Once
    the pool is computed: if it holds an ordered pair of distinct, disjoint
    fragments whose antecedent has support zero, the pair is not skipped and
    the call raises [ZeroDivisionError]; if every fragment of the pool has a
    non-zero support, no division by zero occurs and the call returns its
    list of rules. *)
Theorem association_rules_zero_support (self : Store)
    (frequent_item_sets pool : list FrequentSet) (minimum_confidence minimum_lift : Q) :
  global_item_subsets_support self frequent_item_sets = Ret pool →
  ((∃ a b, (a, b) ∈ global_pairs pool ∧ items a ∩ items b = ∅ ∧ support a = 0) →
   association_rules self frequent_item_sets minimum_confidence minimum_lift
   = Raise ZeroDivisionError) ∧
  (Forall (λ fs, support fs ≠ 0) pool →
   ∃ rules,
     association_rules self frequent_item_sets minimum_confidence minimum_lift = Ret rules).
Proof.
  intros Hpool. unfold association_rules. rewrite Hpool. simpl. split.
  - intros (a & b & Hin & Hdisj & Hzero).
    rewrite (mapM_Raise _ _ ZeroDivisionError); [done| |].
    + apply Forall_forall. intros [a' b'] Hin'.
      destruct (pool_fragments _ _ _ _ _ Hpool Hin') as [Ha' Hb'].
      destruct (rule_of_pair_cases self minimum_confidence minimum_lift a' b' Ha' Hb')
        as [(_ & ->)|[(_ & _ & ->)|(_ & _ & _ & sab & _ & ->)]];
        [left; by eexists | by right | left].
      simpl. destruct (_ && _); by eexists.
    + apply Exists_exists. exists (a, b). split; [done|].
      destruct (pool_fragments _ _ _ _ _ Hpool Hin) as [Ha Hb].
      destruct (rule_of_pair_cases self minimum_confidence minimum_lift a b Ha Hb)
        as [(Hsz & _)|[(_ & _ & ->)|(_ & Hnz & _)]]; [|done..].
      by rewrite Hdisj, size_empty in Hsz.
  - intros Hnz. rewrite Forall_forall in Hnz.
    destruct (mapM_total (rule_of_pair self minimum_confidence minimum_lift)
                (global_pairs pool)) as [found ->]; [|by eexists].
    apply Forall_forall. intros [a b] Hin.
    destruct (pool_fragments _ _ _ _ _ Hpool Hin) as [Ha Hb].
    apply global_pairs_elem_of in Hin as [Hina Hinb].
    destruct (rule_of_pair_cases self minimum_confidence minimum_lift a b Ha Hb)
      as [(_ & ->)|[(_ & [Hz|Hz] & _)|(_ & _ & _ & sab & _ & ->)]].
    + by eexists.
    + by apply Hnz in Hina.
    + by apply Hnz in Hinb.
    + simpl. destruct (_ && _); by eexists.
Qed.

(** The input above is what the miner returns for that store at relative
    threshold 0 with pruning. *)
Example zero_support_input_mined :
  get_frequent_item_sets zero_support_store 0 true true = Ret zero_support_input.
Proof. vm_compute. reflexivity. Qed.

(** C1 as stated fails: on the miner's own output the call divides by a zero
    antecedent support and raises. *)
Lemma association_rules_divides_by_zero :
  association_rules zero_support_store zero_support_input (1#2) (1#20)
  = Raise ZeroDivisionError.
Proof. vm_compute. reflexivity. Qed.

Example scenario_1_input_mined :
  get_frequent_item_sets scenario_1_store (1#2) true true = Ret scenario_1_input.
Proof. vm_compute. reflexivity. Qed.

Lemma association_rules_zero_support_witness :
  (association_rules zero_support_store zero_support_input (1#2) (1#20)
   = Raise ZeroDivisionError) ∧
  (∃ rules, association_rules scenario_1_store scenario_1_input (1#2) (1#20) = Ret rules).
Proof.
  split.
  - apply (association_rules_zero_support zero_support_store zero_support_input
             (match global_item_subsets_support zero_support_store zero_support_input with
              | Ret pool => pool | _ => [] end) (1#2) (1#20)).
    + vm_compute. reflexivity.
    + exists (mkFrequentSet {["a"; "c"]} 0 (0#2)), (mkFrequentSet {["b"]} 1 (1#2)).
      split_and!; [|by vm_compute | reflexivity].
      apply elem_of_global_pairs. exists 3, 2. split; [lia|]. split; vm_compute; reflexivity.
  - apply (association_rules_zero_support scenario_1_store scenario_1_input
             (match global_item_subsets_support scenario_1_store scenario_1_input with
              | Ret pool => pool | _ => [] end) (1#2) (1#20)).
    + vm_compute. reflexivity.
    + vm_compute. repeat constructor; lia.
Defined.

(** C7. Every rule returned by [association_rules] has disjoint condition and
    consequence, a confidence between 0 and 1 and a non-negative lift. *)
Theorem association_rules_valid (self : Store) (frequent_item_sets : list FrequentSet)
    (minimum_confidence minimum_lift : Q) (rules : list AssociationRule) :
  association_rules self frequent_item_sets minimum_confidence minimum_lift = Ret rules →
  Forall (λ rule, condition rule ∩ consequence rule = ∅ ∧
                  (0 <= confidence rule)%Q ∧ (confidence rule <= 1)%Q ∧
                  (0 <= lift rule)%Q) rules.
Proof.
  intros (pool & found & Hpool & Hfound & ->)%association_rules_Ret.
  apply Forall_forall. intros rule. rewrite !elem_of_sorted_reverse, list_elem_of_omap.
  intros (o & Ho & Heq). unfold id in Heq. subst o.
  destruct (Forall2_elem_of_r _ _ _ _ Hfound Ho) as ([a b] & Hin & Hrule).
  destruct (pool_fragments _ _ _ _ _ Hpool Hin) as [Ha Hb].
  destruct (rule_of_pair_cases self minimum_confidence minimum_lift a b Ha Hb)
    as [(_ & Heq)|[(_ & _ & Heq)|(Hdisj & Hnza & Hnzb & sab & Hle & Heq)]];
    rewrite Heq in Hrule; [done..|]. clear Heq.
  simpl in Hrule. destruct (_ && _); [|done]. injection Hrule as <-. simpl.
  pose proof Hb as (_ & _ & _ & Hrel)%support_value_Ret.
  split_and!.
  - by apply size_empty_iff, leibniz_equiv in Hdisj.
  - apply Qdiv_nonneg; apply Qnat_nonneg.
  - apply Qdiv_le_1; [apply Qnat_nonneg | by apply Qnat_le | by rewrite Qnat_eq_0].
  - apply Qdiv_nonneg; [apply Qnat_nonneg|].
    apply Qmult_le_0_compat; [apply Qnat_nonneg|]. rewrite Hrel.
    apply Qdiv_nonneg; apply Qnat_nonneg.
Qed.

Lemma association_rules_valid_witness :
  let rules :=
    match association_rules scenario_1_store scenario_1_input (1#2) (1#20) with
    | Ret rules => rules
    | _ => []
    end in
  rules ≠ [] ∧
  Forall (λ rule, condition rule ∩ consequence rule = ∅ ∧
                  (0 <= confidence rule)%Q ∧ (confidence rule <= 1)%Q ∧
                  (0 <= lift rule)%Q) rules.
Proof.
  intros rules. split; [by vm_compute|].
  apply (association_rules_valid scenario_1_store scenario_1_input (1#2) (1#20) rules).
  vm_compute. reflexivity.
Defined.

(** C9. The returned rules are in non-increasing order of confidence: a rule
    at an earlier position has a confidence at least that of a rule at a later
    position.  The order is the one of the stable sort by confidence alone;
    the second sort, by [__lt__], moves nothing. *)
Theorem association_rules_sorted (self : Store) (frequent_item_sets : list FrequentSet)
    (minimum_confidence minimum_lift : Q) (rules : list AssociationRule) :
  association_rules self frequent_item_sets minimum_confidence minimum_lift = Ret rules →
  (∀ i j rule_i rule_j,
     i < j → rules !! i = Some rule_i → rules !! j = Some rule_j →
     (confidence rule_j <= confidence rule_i)%Q) ∧
  sorted_reverse confidence_lt rules = rules.
Proof.
  intros (pool & found & _ & _ & ->)%association_rules_Ret.
  pose proof (sorted_reverse_descending confidence (omap id found)) as Hsorted.
  change (λ x y, Qltb (confidence x) (confidence y)) with confidence_lt in Hsorted.
  rewrite sorted_reverse_AssociationRule_lt_id by done. split.
  - intros i j rule_i rule_j Hij Hi Hj.
    exact (StronglySorted_lookup _ _ _ _ _ _ Hsorted Hij Hi Hj).
  - unfold sorted_reverse at 1. rewrite sorted_no_inversion; [apply reverse_involutive|].
    apply StronglySorted_reverse in Hsorted. revert Hsorted.
    generalize (reverse (sorted_reverse confidence_lt (omap id found))).
    induction 1 as [|r l _ IH Hr]; constructor; [done|].
    eapply Forall_impl; [done|]. unfold flip, confidence_lt. intros r' Hle.
    by apply Qltb_false.
Qed.

Lemma association_rules_sorted_witness :
  let rules :=
    match association_rules scenario_1_store scenario_1_input (1#2) (1#20) with
    | Ret rules => rules
    | _ => []
    end in
  (∀ i j rule_i rule_j,
     i < j → rules !! i = Some rule_i → rules !! j = Some rule_j →
     (confidence rule_j <= confidence rule_i)%Q) ∧
  sorted_reverse confidence_lt rules = rules.
Proof.
  intros rules.
  apply (association_rules_sorted scenario_1_store scenario_1_input (1#2) (1#20) rules).
  vm_compute. reflexivity.
Defined.

(** ** The threshold, end to end *)

(** C5 (as amended).  In relative mode a threshold inside [0,1] is kept and
    every other one, an infinity and a NaN included, is replaced by 1.  In
    absolute mode a finite threshold is first truncated toward zero by [int];
    the truncated value is kept when it lies between 0 and the transaction
    count and replaced by the transaction count otherwise.  So a fraction
    strictly between -1 and 0 becomes 0 and is kept, while -1 becomes the
    transaction count, and then every returned itemset has a support of at
    least the transaction count.  A threshold that is not finite is rejected
    in absolute mode: the call raises [ValueError] on a NaN and
    [OverflowError] on an infinity. *)
Theorem minimum_support_clamped (self : Store) (minimum_support : Q) :
  ((0 <= minimum_support)%Q ∧ (minimum_support <= 1)%Q →
     clamp_minimum_support self minimum_support true = Ret minimum_support) ∧
  (¬ ((0 <= minimum_support)%Q ∧ (minimum_support <= 1)%Q) →
     clamp_minimum_support self minimum_support true = Ret 1%Q) ∧
  (clamp_minimum_support self PosInf true = Ret 1%Q ∧
   clamp_minimum_support self NegInf true = Ret 1%Q ∧
   clamp_minimum_support self NaN true = Ret 1%Q) ∧
  ((0 ≤ truncate minimum_support ≤ Z.of_nat (_transaction_count self))%Z →
     clamp_minimum_support self minimum_support false
     = Ret (inject_Z (truncate minimum_support))) ∧
  ((truncate minimum_support < 0
    ∨ Z.of_nat (_transaction_count self) < truncate minimum_support)%Z →
     clamp_minimum_support self minimum_support false = Ret (Qnat (_transaction_count self))) ∧
  ((-1 < minimum_support)%Q ∧ (minimum_support < 0)%Q →
     clamp_minimum_support self minimum_support false = Ret 0%Q) ∧
  clamp_minimum_support self (-1) false = Ret (Qnat (_transaction_count self)) ∧
  (∀ prune result fs,
     get_frequent_item_sets self (-1) false prune = Ret result → fs ∈ result →
     __support_value self (items fs) = Ret (support fs, relative_support fs) ∧
     _transaction_count self ≤ support fs) ∧
  (∀ prune,
     get_frequent_item_sets self NaN false prune = Raise ValueError ∧
     get_frequent_item_sets self PosInf false prune = Raise OverflowError ∧
     get_frequent_item_sets self NegInf false prune = Raise OverflowError).
Proof.
  destruct (clamp_minimum_support_cases self minimum_support)
    as (Hin & Hrel & Hkept & Habs & Hm1).
  split_and!; [done..| | done | |].
  - intros [Hlo Hhi]. rewrite Hkept; [by rewrite truncate_fraction|].
    rewrite truncate_fraction by done. lia.
  - intros prune result fs
      (threshold & k & d & Hclamp & Hlev & _ & -> & _)%get_frequent_item_sets_Ret.
    rewrite Hm1 in Hclamp. injection Hclamp as <-.
    rewrite elem_of_sorted_reverse. intros Hfs.
    assert (fs ∈ retained d) as Hin'.
    { apply elem_of_cleaned_frequent_sets in Hfs as (i & Hi & _).
      by eapply list_elem_of_lookup_2. }
    destruct (levels_retained _ _ _ _ _ Hlev) as (Hall & _ & _).
    rewrite Forall_forall in Hall. destruct (Hall fs Hin') as ([Hsv Hnot] & _ & _).
    split; [done|]. unfold not_minimum_support in Hnot.
    by apply Qltb_false, Qnat_le in Hnot.
  - intros prune. split_and!; by apply get_frequent_item_sets_Raise_clamp.
Qed.

Lemma minimum_support_clamped_witness :
  clamp_minimum_support scenario_1_store (1#2) true = Ret (1#2)%Q ∧
  clamp_minimum_support scenario_1_store (3#2) true = Ret 1%Q ∧
  clamp_minimum_support scenario_1_store (5#2) false = Ret (inject_Z 2) ∧
  clamp_minimum_support scenario_1_store 5 false = Ret (Qnat 4) ∧
  clamp_minimum_support scenario_1_store (-1#2) false = Ret 0%Q ∧
  (__support_value full_coverage_store (items full_coverage_set)
   = Ret (support full_coverage_set, relative_support full_coverage_set) ∧
   _transaction_count full_coverage_store ≤ support full_coverage_set).
Proof.
  split; [|split; [|split; [|split; [|split]]]].
  - apply (proj1 (minimum_support_clamped scenario_1_store (1#2))).
    split; by vm_compute.
  - apply (proj1 (proj2 (minimum_support_clamped scenario_1_store (3#2)))).
    intros [_ H]. by vm_compute in H.
  - apply (proj1 (proj2 (proj2 (proj2 (minimum_support_clamped scenario_1_store (5#2)))))).
    by vm_compute.
  - apply (proj1 (proj2 (proj2 (proj2 (proj2
             (minimum_support_clamped scenario_1_store 5)))))).
    right. by vm_compute.
  - apply (proj1 (proj2 (proj2 (proj2 (proj2 (proj2
             (minimum_support_clamped scenario_1_store (-1#2)))))))).
    split; by vm_compute.
  - apply (proj1 (proj2 (proj2 (proj2 (proj2 (proj2 (proj2 (proj2
             (minimum_support_clamped full_coverage_store 0))))))))
             true [full_coverage_set] full_coverage_set).
    + vm_compute. reflexivity.
    + left.
Defined.

(** * Further properties *)

(** ** The inverted index (Memory.py) *)

Section index.
Implicit Types (transaction_index : gmap string (gset nat)) (item : string).
Implicit Types (transaction : list string) (transactions : list (list string)).

Lemma elem_of_index_item row transaction_index item item' (t : nat) :
  t ∈ default ∅ (index_item row transaction_index item !! item') ↔
  (item' = item ∧ t = row) ∨ t ∈ default ∅ (transaction_index !! item').
Proof.
  unfold index_item. destruct (decide (item = item')) as [->|Hne].
  - rewrite lookup_insert_eq. simpl. rewrite elem_of_union, elem_of_singleton. naive_solver.
  - rewrite lookup_insert_ne by done. naive_solver.
Qed.

Lemma elem_of_index_transaction row transaction transaction_index item (t : nat) :
  t ∈ default ∅ (foldl (index_item row) transaction_index transaction !! item) ↔
  (item ∈ transaction ∧ t = row) ∨ t ∈ default ∅ (transaction_index !! item).
Proof.
  revert transaction_index.
  induction transaction as [|item' transaction IH]; intros transaction_index; simpl.
  - split; [by right | by intros [[?%elem_of_nil _]|?]].
  - rewrite IH, elem_of_index_item, elem_of_cons. naive_solver.
Qed.

Lemma elem_of_index_rows row transactions transaction_index item (t : nat) :
  t ∈ default ∅ (index_rows row transaction_index transactions !! item) ↔
  t ∈ default ∅ (transaction_index !! item) ∨
  ∃ i transaction, transactions !! i = Some transaction ∧ item ∈ transaction ∧
                   t = row + i + 1.
Proof.
  revert row transaction_index.
  induction transactions as [|transaction transactions IH]; intros row transaction_index; simpl.
  - split; [by left | by intros [?|(? & ? & ? & _)]].
  - rewrite IH, elem_of_index_transaction. split.
    + intros [[[? ->]|?]|(i & tx & ? & ? & ->)].
      * right. exists 0, transaction. split_and!; [done..|lia].
      * by left.
      * right. exists (S i), tx. split_and!; [done..|lia].
    + intros [?|(i & tx & Hi & ? & ->)]; [by left; right|].
      destruct i as [|i]; simpl in Hi.
      * injection Hi as ->. left. left. split; [done | lia].
      * right. exists i, tx. split_and!; [done..|lia].
Qed.

Lemma dom_index_transaction row transaction transaction_index item :
  item ∈ dom (foldl (index_item row) transaction_index transaction) ↔
  item ∈ transaction ∨ item ∈ dom transaction_index.
Proof.
  revert transaction_index.
  induction transaction as [|item' transaction IH]; intros transaction_index; simpl.
  - split; [by right | by intros [?%elem_of_nil|?]].
  - rewrite IH. unfold index_item. rewrite dom_insert_L, elem_of_union, elem_of_singleton,
      elem_of_cons. naive_solver.
Qed.

Lemma dom_index_rows row transactions transaction_index item :
  item ∈ dom (index_rows row transaction_index transactions) ↔
  item ∈ dom transaction_index ∨ ∃ transaction, transaction ∈ transactions ∧ item ∈ transaction.
Proof.
  revert row transaction_index.
  induction transactions as [|transaction transactions IH]; intros row transaction_index; simpl.
  - split; [by left | by intros [?|(? & ?%elem_of_nil & _)]].
  - rewrite IH, dom_index_transaction. setoid_rewrite elem_of_cons. naive_solver.
Qed.
End index.

Lemma elem_of_item_transactions (transactions : list (list string)) (self : Store)
    (item : string) (row : nat) :
  __init__ (Some transactions) = Ret self →
  row ∈ _item_transactions self item ↔
  1 ≤ row ∧ ∃ transaction, transactions !! (row - 1) = Some transaction ∧ item ∈ transaction.
Proof.
  intros [= <-]. unfold _item_transactions, _index_transactions. simpl.
  rewrite elem_of_index_rows, lookup_empty. simpl. split.
  - intros [?%elem_of_empty|(i & tx & Hi & Hitem & ->)]; [done|].
    split; [lia|]. exists tx. split; [|done]. rewrite <- Hi. f_equal. lia.
  - intros (Hrow & tx & Htx & Hitem). right. exists (row - 1), tx. split_and!; [done..|lia].
Qed.

(** X1. The inverted index of a constructed store: transaction id [row]
    is recorded for [item] exactly when the transaction in position [row]
    (counting from 1) holds the item. *)
Theorem index_lookup (transactions : list (list string)) (self : Store)
    (item : string) (row : nat) :
  __init__ (Some transactions) = Ret self →
  row ∈ _item_transactions self item ↔
  1 ≤ row ∧ ∃ transaction, transactions !! (row - 1) = Some transaction ∧ item ∈ transaction.
Proof. apply elem_of_item_transactions. Qed.

Lemma index_lookup_witness :
  2 ∈ _item_transactions scenario_1_store "c" ↔
  1 ≤ 2 ∧ ∃ transaction, scenario_1 !! (2 - 1) = Some transaction ∧ "c" ∈ transaction.
Proof.
  apply (index_lookup scenario_1 scenario_1_store "c" 2). reflexivity.
Defined.

(** X2. What a constructed store holds: the indexed items are the items
    that occur in some transaction, each of them once; an indexed item has at
    least one transaction id; every recorded id lies between 1 and the
    transaction count; an item that was never seen has no transaction id. *)
Theorem index_invariants (transactions : list (list string)) (self : Store) :
  __init__ (Some transactions) = Ret self →
  _transaction_count self = length transactions ∧
  NoDup (_get_all_items self) ∧
  (∀ item, item ∈ _get_all_items self ↔
           ∃ transaction, transaction ∈ transactions ∧ item ∈ transaction) ∧
  (∀ item, item ∈ _get_all_items self → _item_transactions self item ≠ ∅) ∧
  (∀ item, item ∉ _get_all_items self → _item_transactions self item = ∅) ∧
  (∀ item row, row ∈ _item_transactions self item → 1 ≤ row ≤ _transaction_count self).
Proof.
  intros Hinit.
  assert (∀ item, item ∈ _get_all_items self ↔
                  ∃ transaction, transaction ∈ transactions ∧ item ∈ transaction) as Hitems.
  { intros item. injection Hinit as <-. unfold _get_all_items, _index_transactions. simpl.
    rewrite elem_of_elements, dom_index_rows, dom_empty_L. set_solver. }
  split_and!.
  - by injection Hinit as <-.
  - unfold _get_all_items. apply NoDup_elements.
  - done.
  - intros item (tx & [i Hi]%list_elem_of_lookup_1 & Hitem)%Hitems Hempty.
    assert (S i ∈ _item_transactions self item) as Hin.
    { apply (elem_of_item_transactions transactions); [done|]. split; [lia|]. exists tx.
      split; [|done]. rewrite <- Hi. f_equal. lia. }
    by rewrite Hempty in Hin.
  - intros item Hnot. apply set_eq. intros row. split; [|by intros ?%elem_of_empty].
    intros (_ & tx & Htx%list_elem_of_lookup_2 & Hitem)%(elem_of_item_transactions transactions); [|done].
    exfalso. apply Hnot, Hitems. by exists tx.
  - intros item row (Hrow & tx & Htx%lookup_lt_Some & _)%(elem_of_item_transactions transactions); [|done].
    injection Hinit as <-. simpl. lia.
Qed.

Lemma index_invariants_witness :
  _transaction_count scenario_1_store = length scenario_1 ∧
  NoDup (_get_all_items scenario_1_store) ∧
  (∀ item, item ∈ _get_all_items scenario_1_store ↔
           ∃ transaction, transaction ∈ scenario_1 ∧ item ∈ transaction) ∧
  (∀ item, item ∈ _get_all_items scenario_1_store →
           _item_transactions scenario_1_store item ≠ ∅) ∧
  (∀ item, item ∉ _get_all_items scenario_1_store →
           _item_transactions scenario_1_store item = ∅) ∧
  (∀ item row, row ∈ _item_transactions scenario_1_store item →
               1 ≤ row ≤ _transaction_count scenario_1_store).
Proof.
  apply (index_invariants scenario_1 scenario_1_store). reflexivity.
Defined.

(** ** The support of a constructed store *)

Section constructed_support.
Variables (transactions : list (list string)) (self : Store).
Hypothesis Hinit : __init__ (Some transactions) = Ret self.
Implicit Types (candidate : gset string) (transaction : list string).

Lemma covers_constructed candidate (t : nat) :
  candidate ≠ ∅ →
  covers self candidate t ↔
  1 ≤ t ∧ ∃ transaction, transactions !! (t - 1) = Some transaction ∧
                         candidate ⊆ list_to_set transaction.
Proof.
  intros [item0 Hitem0]%set_choose_L. unfold covers. split.
  - intros Hcov.
    destruct (proj1 (elem_of_item_transactions _ _ _ _ Hinit) (Hcov item0 Hitem0))
      as (Ht & tx & Htx & _).
    split; [done|]. exists tx. split; [done|]. intros item Hitem.
    destruct (proj1 (elem_of_item_transactions _ _ _ _ Hinit) (Hcov item Hitem))
      as (_ & tx' & Htx' & Hin).
    apply (elem_of_list_to_set (C:=gset string)). congruence.
  - intros (Ht & tx & Htx & Hsub) item Hitem.
    apply (elem_of_item_transactions _ _ _ _ Hinit). split; [done|]. exists tx.
    split; [done|]. by apply (elem_of_list_to_set (C:=gset string)), Hsub.
Qed.

(** The rows of the transactions that satisfy [P], counted. *)
Lemma rows_counted (P : list string → Prop) `{!∀ transaction, Decision (P transaction)}
    (txs : list (list string)) (n : nat) :
  ∃ rows : gset nat,
    (∀ t, t ∈ rows ↔ ∃ i transaction, txs !! i = Some transaction ∧ P transaction ∧
                                      t = n + i + 1) ∧
    size rows = length (filter P txs).
Proof.
  revert n. induction txs as [|tx txs IH]; intros n.
  - exists ∅. split; [|done]. intros t. split; [by intros ?%elem_of_empty|].
    by intros (? & ? & ? & _).
  - destruct (IH (S n)) as (rows & Hrows & Hsize).
    destruct (decide (P tx)) as [HP|HP].
    + exists ({[n + 1]} ∪ rows). split.
      * intros t. rewrite elem_of_union, elem_of_singleton, Hrows. split.
        -- intros [->|(i & tx' & ? & ? & ->)].
           ++ exists 0, tx. split_and!; [done..|lia].
           ++ exists (S i), tx'. split_and!; [done..|lia].
        -- intros ([|i] & tx' & Hi & ? & ->); simpl in Hi.
           ++ left. lia.
           ++ right. exists i, tx'. split_and!; [done..|lia].
      * rewrite filter_cons_True by done. simpl. rewrite <- Hsize.
        rewrite size_union, size_singleton; [done|].
        intros t ->%elem_of_singleton (i & ? & _ & _ & ?)%Hrows. lia.
    + exists rows. split.
      * intros t. rewrite Hrows. split.
        -- intros (i & tx' & ? & ? & ->). exists (S i), tx'. split_and!; [done..|lia].
        -- intros ([|i] & tx' & Hi & ? & ->); simpl in Hi.
           ++ by injection Hi as ->.
           ++ exists i, tx'. split_and!; [done..|lia].
      * by rewrite filter_cons_False.
Qed.

Lemma support_value_constructed candidate :
  candidate ≠ ∅ → transactions ≠ [] →
  __support_value self candidate =
  let support :=
    length (filter (λ transaction, candidate ⊆ list_to_set transaction) transactions) in
  Ret (support, (Qnat support / Qnat (length transactions))%Q).
Proof.
  intros Hne Htxs. simpl. apply support_value_Ret.
  assert (_transaction_count self = length transactions) as Hcount
    by by injection Hinit as <-.
  split_and!; [done | | | by rewrite Hcount].
  - rewrite Hcount. by destruct transactions.
  - destruct (rows_counted (λ transaction, candidate ⊆ list_to_set transaction)
                transactions 0) as (rows & Hrows & Hsize).
    exists rows. split; [|done]. intros t. rewrite Hrows, covers_constructed by done. split.
    + intros (i & tx & Hi & Hsub & ->). split; [lia|]. exists tx. split; [|done].
      rewrite <- Hi. f_equal. lia.
    + intros (Ht & tx & Htx & Hsub). exists (t - 1), tx. split_and!; [done..|lia].
Qed.
End constructed_support.

(** X3. On a constructed store with at least one transaction, the support
    query on a non-empty candidate returns the number of transactions that
    hold every item of the candidate, and that number divided by the number
    of transactions. *)
Theorem support_counts_transactions (transactions : list (list string)) (self : Store)
    (candidate : gset string) :
  __init__ (Some transactions) = Ret self →
  candidate ≠ ∅ → transactions ≠ [] →
  __support_value self candidate =
  let support :=
    length (filter (λ transaction, candidate ⊆ list_to_set transaction) transactions) in
  Ret (support, (Qnat support / Qnat (length transactions))%Q).
Proof. intros Hinit. by apply support_value_constructed. Qed.

Lemma support_counts_transactions_witness :
  __support_value scenario_1_store {["b"; "c"]} =
  let support :=
    length (filter (λ transaction, ({["b"; "c"]} : gset string) ⊆ list_to_set transaction)
              scenario_1) in
  Ret (support, (Qnat support / Qnat (length scenario_1))%Q).
Proof.
  apply (support_counts_transactions scenario_1 scenario_1_store {["b"; "c"]}).
  - reflexivity.
  - by vm_compute.
  - done.
Defined.

(** X4. On a constructed store, a support returned by the query is at most
    the transaction count, and the relative support lies between 0 and 1. *)
Theorem support_bounds (transactions : list (list string)) (self : Store)
    (candidate : gset string) (support : nat) (relative_support : Q) :
  __init__ (Some transactions) = Ret self →
  __support_value self candidate = Ret (support, relative_support) →
  support ≤ _transaction_count self ∧
  (0 <= relative_support)%Q ∧ (relative_support <= 1)%Q.
Proof.
  intros Hinit Hsv.
  pose proof Hsv as (Hne & Hcount & _ & _)%support_value_Ret.
  assert (_transaction_count self = length transactions) as Hlen
    by by injection Hinit as <-.
  rewrite (support_value_constructed transactions self Hinit candidate Hne) in Hsv
    by (intros ->; by rewrite Hlen in Hcount).
  simpl in Hsv. injection Hsv as <- <-. rewrite Hlen.
  assert (length (filter (λ transaction, candidate ⊆ list_to_set transaction) transactions)
          ≤ length transactions) as Hle by apply length_filter.
  split_and!; [done | |].
  - apply Qdiv_nonneg; apply Qnat_nonneg.
  - apply Qdiv_le_1; [apply Qnat_nonneg | by apply Qnat_le |].
    rewrite Qnat_eq_0. by rewrite <- Hlen.
Qed.

Lemma support_bounds_witness :
  2 ≤ _transaction_count scenario_1_store ∧ (0 <= 2#4)%Q ∧ (2#4 <= 1)%Q.
Proof.
  apply (support_bounds scenario_1 scenario_1_store {["b"; "c"]} 2 (2#4)).
  - reflexivity.
  - vm_compute. reflexivity.
Defined.

(** X5. How the support query ends, on any store: [TypeError] on the empty
    candidate ([reduce] of an empty sequence); [ZeroDivisionError] on a
    non-empty candidate when the transaction count is zero; a result in every
    other case. *)
Theorem support_value_outcome (self : Store) (candidate : gset string) :
  (candidate = ∅ → __support_value self candidate = Raise TypeError) ∧
  (candidate ≠ ∅ → _transaction_count self = 0 →
   __support_value self candidate = Raise ZeroDivisionError) ∧
  (candidate ≠ ∅ → _transaction_count self ≠ 0 →
   ∃ support relative_support,
     __support_value self candidate = Ret (support, relative_support)).
Proof.
  split_and!.
  - intros ->. unfold __support_value. by rewrite elements_empty.
  - intros Hne Hcount. unfold __support_value.
    destruct (reduce_intersection_total self candidate Hne) as [X ->]. simpl.
    by rewrite Hcount.
  - apply support_value_total.
Qed.

Lemma support_value_outcome_witness :
  __support_value scenario_1_store ∅ = Raise TypeError ∧
  __support_value (mkStore ∅ 0) {["a"]} = Raise ZeroDivisionError ∧
  (∃ support relative_support,
     __support_value scenario_1_store {["a"]} = Ret (support, relative_support)).
Proof.
  split_and!.
  - by apply (proj1 (support_value_outcome scenario_1_store ∅)).
  - apply (proj1 (proj2 (support_value_outcome (mkStore ∅ 0) {["a"]}))); by vm_compute.
  - apply (proj2 (proj2 (support_value_outcome scenario_1_store {["a"]}))); by vm_compute.
Defined.

(** ** What get_frequent_item_sets returns *)

(** Sorting by a key in [nat]. *)
Section sorted_by_nat_key.
Context {A : Type} (key : A → nat).
Let key_lt (x y : A) : bool := bool_decide (key x < key y).

Lemma insert_from_right_descending_nat x prefix_rev :
  StronglySorted (λ a b, key b ≤ key a) prefix_rev →
  StronglySorted (λ a b, key b ≤ key a) (insert_from_right key_lt x prefix_rev).
Proof.
  induction 1 as [|y rest Hs IH Hy]; simpl; [repeat constructor|].
  unfold key_lt at 1. case_bool_decide as Hlt.
  - constructor; [done|]. rewrite insert_from_right_Permutation. constructor; [lia | done].
  - constructor; [by constructor|]. constructor; [lia|].
    eapply Forall_impl; [done|]. simpl. intros z Hz. lia.
Qed.

Lemma sorted_reverse_descending_nat l :
  StronglySorted (λ a b, key b ≤ key a) (sorted_reverse key_lt l).
Proof.
  unfold sorted_reverse, sorted. rewrite reverse_involutive.
  generalize (reverse l). intros l'.
  assert (StronglySorted (λ a b, key b ≤ key a) (@nil A)) as Hnil by constructor.
  revert Hnil. generalize (@nil A).
  induction l' as [|x l' IH]; intros prefix_rev Hs; simpl; [done|].
  by apply IH, insert_from_right_descending_nat.
Qed.
End sorted_by_nat_key.

Lemma cleaned_frequent_sets_sublist (prune : bool) (joined : list FrequentSet) :
  cleaned_frequent_sets prune joined `sublist_of` joined.
Proof.
  unfold cleaned_frequent_sets.
  assert (map snd (enumerate joined) = joined) as Hsnd.
  { unfold enumerate. apply snd_zip. by rewrite length_seq. }
  rewrite <- Hsnd at 2. apply fmap_sublist, sublist_filter.
Qed.

Lemma NoDup_fmap_elem_of_inj {A B : Type} (f : A → B) (l : list A) (x y : A) :
  NoDup (map f l) → x ∈ l → y ∈ l → f x = f y → x = y.
Proof.
  intros Hnd [i Hi]%list_elem_of_lookup_1 [j Hj]%list_elem_of_lookup_1 Heq.
  assert (i = j) as ->; [|congruence].
  eapply NoDup_lookup; [exact Hnd | by rewrite list_lookup_fmap, Hi |].
  by rewrite list_lookup_fmap, Hj, Heq.
Qed.

Section returned.
Variables (self : Store) (minimum_support : pyfloat) (is_relative_support : bool).
Variable threshold : Q.
Hypothesis Hclamp :
  clamp_minimum_support self minimum_support is_relative_support = Ret threshold.

Lemma not_minimum_support_false q rel s r :
  not_minimum_support q rel s r = false ↔
  if rel then (q <= r)%Q else (q <= Qnat s)%Q.
Proof. unfold not_minimum_support. destruct rel; apply Qltb_false. Qed.

(** The retained itemsets are the frequent ones. *)
Lemma retained_frequent k d last (T : gset string) :
  levels self threshold is_relative_support k d →
  dict_get d k = Ret last →
  current_iteration_frequent_sets self threshold is_relative_support
    (candidate_sets last k) = Ret [] →
  T ∈ map items (retained d) ↔
  T ≠ ∅ ∧ T ⊆ dom (_transaction_index self) ∧
  meets_minimum_support self threshold is_relative_support T.
Proof.
  intros Hlev Hget Hlast.
  destruct (levels_retained _ _ _ _ _ Hlev) as (Hfreq & _ & _). split.
  - intros (fs & -> & Hfs)%list_elem_of_fmap. rewrite Forall_forall in Hfreq.
    destruct (Hfreq fs Hfs) as (Hfs_freq & [Hsize _] & Hdom).
    split_and!; [|done | by apply is_frequent_meets].
    intros Hempty. rewrite Hempty, size_empty in Hsize. lia.
  - intros (Hne & Hdom & Hmeets).
    destruct (size T) as [|n] eqn:Hsize;
      [by apply size_empty_iff, leibniz_equiv in Hsize|].
    destruct (levels_complete _ _ _ _ _ _ Hlev Hget Hlast n T Hsize Hdom Hmeets)
      as (sets' & Hsets' & (fs & -> & Hfs)%list_elem_of_fmap).
    apply list_elem_of_fmap. exists fs. split; [done|].
    apply elem_of_retained. exists (S n), sets'. split_and!; [lia | done..].
Qed.

Lemma returned_items_no_prune result (T : gset string) :
  get_frequent_item_sets self minimum_support is_relative_support false = Ret result →
  T ∈ map items result ↔
  T ≠ ∅ ∧ T ⊆ dom (_transaction_index self) ∧
  meets_minimum_support self threshold is_relative_support T.
Proof.
  intros (threshold' & k & d & Hclamp' & Hlev & _ & -> & last & Hget & Hlast)
    %get_frequent_item_sets_Ret.
  rewrite Hclamp in Hclamp'. injection Hclamp' as <-.
  rewrite <- (retained_frequent k d last) by done.
  assert (map items (sorted_reverse FrequentSet_lt (cleaned_frequent_sets false (retained d)))
          ≡ₚ map items (retained d)) as ->; [|done].
  apply fmap_Permutation. by rewrite sorted_reverse_Permutation, cleaned_frequent_sets_no_prune.
Qed.

Lemma returned_sound prune result :
  get_frequent_item_sets self minimum_support is_relative_support prune = Ret result →
  NoDup (map items result) ∧
  Forall (λ fs,
            items fs ≠ ∅ ∧ items fs ⊆ dom (_transaction_index self) ∧
            __support_value self (items fs) = Ret (support fs, relative_support fs) ∧
            if is_relative_support then (threshold <= relative_support fs)%Q
            else (threshold <= Qnat (support fs))%Q) result.
Proof.
  intros (threshold' & k & d & Hclamp' & Hlev & _ & -> & _)%get_frequent_item_sets_Ret.
  rewrite Hclamp in Hclamp'. injection Hclamp' as <-.
  destruct (levels_retained _ _ _ _ _ Hlev) as (Hfreq & _ & Hnd).
  pose proof (cleaned_frequent_sets_sublist prune (retained d)) as Hsub. split.
  - eapply NoDup_Permutation_proper;
      [apply fmap_Permutation, sorted_reverse_Permutation|].
    eapply sublist_NoDup; [exact Hnd|]. by apply fmap_sublist.
  - apply Forall_forall. intros fs Hfs%elem_of_sorted_reverse.
    rewrite Forall_forall in Hfreq.
    destruct (Hfreq fs) as ([Hsv Hnot] & [Hsize _] & Hdom);
      [by eapply sublist_subseteq|].
    split_and!; [|done..| by apply not_minimum_support_false].
    intros Hempty. rewrite Hempty, size_empty in Hsize. lia.
Qed.
End returned.

(** X6. The returned itemsets are in non-increasing order of support. *)
Theorem frequent_item_sets_sorted (self : Store) (minimum_support : pyfloat)
    (is_relative_support prune : bool) (result : list FrequentSet) :
  get_frequent_item_sets self minimum_support is_relative_support prune = Ret result →
  ∀ i j set_i set_j,
    i < j → result !! i = Some set_i → result !! j = Some set_j →
    support set_j ≤ support set_i.
Proof.
  intros (threshold & k & d & _ & _ & _ & -> & _)%get_frequent_item_sets_Ret
    i j set_i set_j Hij Hi Hj.
  exact (StronglySorted_lookup _ _ _ _ _ _ (sorted_reverse_descending_nat support _) Hij Hi Hj).
Qed.

Lemma frequent_item_sets_sorted_witness :
  support (mkFrequentSet {["c"]} 2 (2#4)) ≤ support (mkFrequentSet {["a"]} 3 (3#4)).
Proof.
  refine (frequent_item_sets_sorted scenario_1_store (1#2) true false
            (match get_frequent_item_sets scenario_1_store (1#2) true false with
             | Ret result => result | _ => [] end) _
            0 2 (mkFrequentSet {["a"]} 3 (3#4)) (mkFrequentSet {["c"]} 2 (2#4)) _ _ _).
  - vm_compute. reflexivity.
  - lia.
  - vm_compute. reflexivity.
  - vm_compute. reflexivity.
Defined.

(** X7. Every returned itemset, pruned or not, is non-empty, is made of
    indexed items, carries the support and the relative support the support
    query gives for it, and meets the threshold in use, the one the clamp
    yields (the relative support in relative mode, the support in absolute
    mode); no itemset is returned twice. *)
Theorem frequent_item_sets_sound (self : Store) (minimum_support : pyfloat)
    (is_relative_support prune : bool) (result : list FrequentSet) :
  get_frequent_item_sets self minimum_support is_relative_support prune = Ret result →
  ∃ threshold,
    clamp_minimum_support self minimum_support is_relative_support = Ret threshold ∧
    NoDup (map items result) ∧
    Forall (λ fs,
              items fs ≠ ∅ ∧ items fs ⊆ dom (_transaction_index self) ∧
              __support_value self (items fs) = Ret (support fs, relative_support fs) ∧
              if is_relative_support
              then (threshold <= relative_support fs)%Q
              else (threshold <= Qnat (support fs))%Q)
           result.
Proof.
  intros Hret.
  destruct (get_frequent_item_sets_clamped _ _ _ _ _ Hret) as [threshold Hclamp].
  exists threshold. split; [done|]. exact (returned_sound _ _ _ _ Hclamp _ _ Hret).
Qed.

Lemma frequent_item_sets_sound_witness :
  ∃ threshold,
    clamp_minimum_support scenario_1_store (1#2) true = Ret threshold ∧
    NoDup (map items scenario_1_input) ∧
    Forall (λ fs,
              items fs ≠ ∅ ∧ items fs ⊆ dom (_transaction_index scenario_1_store) ∧
              __support_value scenario_1_store (items fs)
              = Ret (support fs, relative_support fs) ∧
              if true
              then (threshold <= relative_support fs)%Q
              else (threshold <= Qnat (support fs))%Q)
           scenario_1_input.
Proof.
  apply (frequent_item_sets_sound scenario_1_store (1#2) true true scenario_1_input).
  vm_compute. reflexivity.
Defined.

(** X8. Without pruning the result is downward closed: every non-empty subset
    of a returned itemset is returned as well. *)
Theorem frequent_item_sets_downward_closed (self : Store) (minimum_support : pyfloat)
    (is_relative_support : bool) (result : list FrequentSet) (fs : FrequentSet)
    (T : gset string) :
  get_frequent_item_sets self minimum_support is_relative_support false = Ret result →
  fs ∈ result → T ≠ ∅ → T ⊆ items fs →
  T ∈ map items result.
Proof.
  intros Hret Hfs Hne Hsub.
  destruct (get_frequent_item_sets_clamped _ _ _ _ _ Hret) as [threshold Hclamp].
  assert (items fs ∈ map items result) as Hin by (apply list_elem_of_fmap; by exists fs).
  apply (returned_items_no_prune _ _ _ _ Hclamp _ _ Hret) in Hin as (_ & Hdom & Hmeets).
  apply (returned_items_no_prune _ _ _ _ Hclamp _ _ Hret). split_and!; [done | set_solver |].
  destruct Hmeets as (s & r & Hsv & Hnot).
  apply (subset_meets_minimum_support self is_relative_support _ (mkFrequentSet (items fs) s r));
    [by split | done..].
Qed.

Lemma frequent_item_sets_downward_closed_witness :
  let result :=
    match get_frequent_item_sets scenario_1_store (1#2) true false with
    | Ret result => result
    | _ => []
    end in
  ({["b"]} : gset string) ∈ map items result.
Proof.
  intros result.
  apply (frequent_item_sets_downward_closed scenario_1_store (1#2) true result
           (mkFrequentSet {["b"; "c"]} 2 (2#4)) {["b"]}).
  - vm_compute. reflexivity.
  - vm_compute. do 3 right. left.
  - by vm_compute.
  - apply (bool_decide_unpack _). by vm_compute.
Defined.

Section maximal_cover.
Implicit Types (joined : list FrequentSet) (fs : FrequentSet).

(** In a list that holds no itemset twice, every itemset is included in one
    that is included in no other. *)
Lemma maximal_superset joined fs :
  NoDup (map items joined) → fs ∈ joined →
  ∃ top, top ∈ joined ∧ items fs ⊆ items top ∧
         ∀ other, other ∈ joined → items top ⊆ items other → other = top.
Proof.
  intros Hnd.
  assert (∃ bound, ∀ other, other ∈ joined → size (items other) ≤ bound) as [bound Hbound].
  { clear Hnd. induction joined as [|x l [b IH]]; [exists 0; by intros ? ?%elem_of_nil|].
    exists (size (items x) `max` b). intros other [->|?%IH]%elem_of_cons; lia. }
  remember (bound - size (items fs)) as gap eqn:Hgap. revert fs Hgap.
  induction gap as [gap IH] using lt_wf_ind. intros fs Hgap Hfs.
  destruct (decide (Exists (λ other, items fs ⊆ items other ∧ items other ≠ items fs) joined))
    as [Hex|Hno].
  - apply Exists_exists in Hex as (other & Hother & Hsub & Hne).
    assert (size (items fs) < size (items other)) as Hlt.
    { apply subset_size. split; [done|]. intros Hrev. apply Hne. set_solver. }
    pose proof (Hbound other Hother).
    destruct (IH (bound - size (items other))) with (fs := other)
      as (top & Htop & Hsub' & Hmax); [lia | done | done |].
    exists top. split_and!; [done | set_solver | done].
  - exists fs. split_and!; [done..|]. intros other Hother Hsub.
    apply (NoDup_fmap_elem_of_inj items joined); [done..|].
    destruct (decide (items other = items fs)) as [|Hne]; [done|].
    exfalso. apply Hno, Exists_exists. by exists other.
Qed.
End maximal_cover.

(** X9. Pruning loses no itemset altogether: every itemset returned without
    pruning is included in an itemset returned with pruning. *)
Theorem pruned_result_covers (self : Store) (minimum_support : pyfloat)
    (is_relative_support : bool) (all_sets maximal_sets : list FrequentSet) (fs : FrequentSet) :
  get_frequent_item_sets self minimum_support is_relative_support false = Ret all_sets →
  get_frequent_item_sets self minimum_support is_relative_support true = Ret maximal_sets →
  fs ∈ all_sets →
  ∃ top, top ∈ maximal_sets ∧ items fs ⊆ items top.
Proof.
  intros (threshold & k & d & _ & Hlev & Hall & -> & _)%get_frequent_item_sets_Ret Hmax.
  rewrite Hall in Hmax. injection Hmax as <-.
  rewrite elem_of_sorted_reverse, cleaned_frequent_sets_no_prune. intros Hfs.
  destruct (levels_retained _ _ _ _ _ Hlev) as (_ & Hsorted & Hnd).
  destruct (maximal_superset _ _ Hnd Hfs) as (top & Htop & Hsub & Hmaximal).
  exists top. split; [|done].
  by apply elem_of_sorted_reverse, cleaned_frequent_sets_maximal.
Qed.

Lemma pruned_result_covers_witness :
  let all_sets :=
    match get_frequent_item_sets scenario_1_store (1#2) true false with
    | Ret result => result
    | _ => []
    end in
  ∃ top, top ∈ scenario_1_input ∧ items (mkFrequentSet {["c"]} 2 (2#4)) ⊆ items top.
Proof.
  intros all_sets.
  apply (pruned_result_covers scenario_1_store (1#2) true all_sets scenario_1_input
           (mkFrequentSet {["c"]} 2 (2#4))).
  - vm_compute. reflexivity.
  - vm_compute. reflexivity.
  - vm_compute. do 2 right. left.
Defined.

(** X10. A higher threshold returns fewer itemsets: without pruning, every
    itemset returned under the greater (clamped) threshold is also returned
    under the smaller one, in the same mode. *)
Theorem frequent_item_sets_threshold_monotone (self : Store)
    (lower higher : pyfloat) (is_relative_support : bool)
    (threshold_lower threshold_higher : Q)
    (result_lower result_higher : list FrequentSet) :
  clamp_minimum_support self lower is_relative_support = Ret threshold_lower →
  clamp_minimum_support self higher is_relative_support = Ret threshold_higher →
  (threshold_lower <= threshold_higher)%Q →
  get_frequent_item_sets self lower is_relative_support false = Ret result_lower →
  get_frequent_item_sets self higher is_relative_support false = Ret result_higher →
  ∀ T : gset string, T ∈ map items result_higher → T ∈ map items result_lower.
Proof.
  intros Hclamp_lower Hclamp_higher Hle Hlower Hhigher T
    (Hne & Hdom & s & r & Hsv & Hnot)%(returned_items_no_prune
    _ _ _ _ Hclamp_higher _ _ Hhigher).
  apply (returned_items_no_prune _ _ _ _ Hclamp_lower _ _ Hlower). split_and!; [done..|].
  exists s, r. split; [done|]. apply not_minimum_support_false.
  apply not_minimum_support_false in Hnot.
  destruct is_relative_support; by eapply Qle_trans.
Qed.

Lemma frequent_item_sets_threshold_monotone_witness :
  ({["b"; "c"]} : gset string) ∈
    map items (match get_frequent_item_sets scenario_1_store (1#4) true false with
               | Ret result => result | _ => [] end).
Proof.
  refine (frequent_item_sets_threshold_monotone scenario_1_store (1#4) (1#2) true
           (1#4) (1#2)
           (match get_frequent_item_sets scenario_1_store (1#4) true false with
            | Ret result => result | _ => [] end)
           (match get_frequent_item_sets scenario_1_store (1#2) true false with
            | Ret result => result | _ => [] end) _ _ _ _ _ {["b"; "c"]} _).
  - vm_compute. reflexivity.
  - vm_compute. reflexivity.
  - by vm_compute.
  - vm_compute. reflexivity.
  - vm_compute. reflexivity.
  - vm_compute. do 3 right. left.
Defined.

Lemma support_value_zero_count (self : Store) (candidate : gset string) :
  candidate ≠ ∅ → _transaction_count self = 0 →
  __support_value self candidate = Raise ZeroDivisionError.
Proof.
  intros Hne Hcount. unfold __support_value.
  destruct (reduce_intersection_total self candidate Hne) as [X ->]. simpl.
  by rewrite Hcount.
Qed.

(** X11. How [get_frequent_item_sets] ends, on any store and for any
    threshold.  The loop always ends.  The threshold is looked at first: in
    absolute mode a NaN raises [ValueError] and an infinity raises
    [OverflowError], whatever the store.  In relative mode, and in absolute
    mode with a finite threshold, the outcome depends on the store alone:
    with at least one transaction the call returns a list; with no
    transaction it returns the empty list when the index is empty (the case
    of every constructed store), and raises [ZeroDivisionError] when the
    index lists an item. *)
Theorem get_frequent_item_sets_outcome (self : Store) (minimum_support : pyfloat)
    (is_relative_support prune : bool) :
  get_frequent_item_sets self minimum_support is_relative_support prune ≠ OutOfFuel ∧
  (is_relative_support = false → minimum_support = NaN →
   get_frequent_item_sets self minimum_support is_relative_support prune
   = Raise ValueError) ∧
  (is_relative_support = false → minimum_support = PosInf ∨ minimum_support = NegInf →
   get_frequent_item_sets self minimum_support is_relative_support prune
   = Raise OverflowError) ∧
  (is_relative_support = true ∨ (∃ q, minimum_support = Finite q) →
   (_transaction_count self ≠ 0 →
    ∃ result,
      get_frequent_item_sets self minimum_support is_relative_support prune = Ret result) ∧
   (_transaction_count self = 0 → _transaction_index self = ∅ →
    get_frequent_item_sets self minimum_support is_relative_support prune = Ret []) ∧
   (_transaction_count self = 0 → _transaction_index self ≠ ∅ →
    get_frequent_item_sets self minimum_support is_relative_support prune
    = Raise ZeroDivisionError)).
Proof.
  split; [apply get_frequent_item_sets_terminates|].
  split; [by intros -> ->|]. split; [by intros -> [->| ->]|].
  intros Hpass.
  assert (∃ threshold,
            clamp_minimum_support self minimum_support is_relative_support = Ret threshold)
    as [threshold Hclamp].
  { destruct Hpass as [->|[q ->]];
      [apply clamp_minimum_support_relative | apply clamp_minimum_support_finite]. }
  split_and!.
  - by apply (get_frequent_item_sets_returns _ _ _ _ threshold).
  - intros _ Hempty. unfold get_frequent_item_sets, get_frequent_item_sets_fuel.
    rewrite Hclamp, bind_Ret_l.
    unfold _get_all_items, initial_set, _get_all_items. rewrite Hempty, dom_empty_L.
    rewrite elements_empty. simpl. unfold candidate_sets, possible_candidate_sets.
    simpl. unfold unique_items. simpl. rewrite elements_empty. simpl.
    by destruct prune.
  - intros Hcount Hindex. unfold get_frequent_item_sets, get_frequent_item_sets_fuel.
    rewrite Hclamp, bind_Ret_l. simpl.
    assert (∃ candidate rest,
              candidate_sets (initial_set self is_relative_support) 0 = candidate :: rest ∧
              candidate ≠ ∅) as (candidate & rest & -> & Hne).
    { destruct (candidate_sets _ 0) as [|candidate rest] eqn:Hcands.
      - exfalso. apply Hindex. apply map_empty. intros item.
        destruct (_transaction_index self !! item) as [rows|] eqn:Hitem; [|done].
        assert (({[item]} : gset string) ∈ candidate_sets (initial_set self is_relative_support) 0)
          as Hin; [|by rewrite Hcands in Hin; apply elem_of_nil in Hin].
        apply elem_of_candidate_sets. rewrite unique_items_initial_set.
        split_and!; [|by rewrite size_singleton | lia].
        apply singleton_subseteq_l, elem_of_dom. by eexists.
      - exists candidate, rest. split; [done|].
        assert (candidate ∈ candidate_sets (initial_set self is_relative_support) 0)
          as (_ & Hsize & _)%elem_of_candidate_sets by (rewrite Hcands; left).
        intros ->. by rewrite size_empty in Hsize. }
    simpl. by rewrite (support_value_zero_count self candidate Hne Hcount).
Qed.

Lemma get_frequent_item_sets_outcome_witness :
  get_frequent_item_sets scenario_1_store NaN false true = Raise ValueError ∧
  get_frequent_item_sets scenario_1_store NegInf false true = Raise OverflowError ∧
  (∃ result, get_frequent_item_sets scenario_1_store (1#2) true true = Ret result) ∧
  (∃ result, get_frequent_item_sets scenario_1_store 2 false true = Ret result) ∧
  get_frequent_item_sets (mkStore ∅ 0) NaN true true = Ret [] ∧
  get_frequent_item_sets (mkStore {["a" := {[1]}]} 0) (1#2) true true
  = Raise ZeroDivisionError.
Proof.
  split; [|split; [|split; [|split; [|split]]]].
  - by apply (proj1 (proj2 (get_frequent_item_sets_outcome scenario_1_store NaN false true))).
  - apply (proj1 (proj2 (proj2
             (get_frequent_item_sets_outcome scenario_1_store NegInf false true))));
      [done | by right].
  - apply (proj1 (proj2 (proj2 (proj2
             (get_frequent_item_sets_outcome scenario_1_store (1#2) true true)))
             (or_introl eq_refl))).
    by vm_compute.
  - apply (proj1 (proj2 (proj2 (proj2
             (get_frequent_item_sets_outcome scenario_1_store 2 false true)))
             (or_intror (ex_intro _ 2%Q eq_refl)))).
    by vm_compute.
  - by apply (proj1 (proj2 (proj2 (proj2 (proj2
              (get_frequent_item_sets_outcome (mkStore ∅ 0) NaN true true)))
              (or_introl eq_refl)))).
  - apply (proj2 (proj2 (proj2 (proj2 (proj2
              (get_frequent_item_sets_outcome (mkStore {["a" := {[1]}]} 0) (1#2) true true)))
              (or_introl eq_refl))));
      by vm_compute.
Defined.

(** ** What association_rules returns *)

Lemma mapM_outcome {A B : Type} (f : A → result B) (l : list A) (e : exn) :
  Forall (λ x, (∃ y, f x = Ret y) ∨ f x = Raise e) l →
  (∃ ys, mapM f l = Ret ys) ∨ mapM f l = Raise e.
Proof.
  induction 1 as [|x l [[y Hy]|Hx] _ [[ys IH]|IH]]; simpl.
  - left. by eexists.
  - rewrite Hy, IH. left. by eexists.
  - rewrite Hy, IH. by right.
  - rewrite Hx. by right.
  - rewrite Hx. by right.
Qed.

Lemma Forall2_elem_of_l {A B : Type} (P : A → B → Prop) (l : list A) (k : list B) (x : A) :
  Forall2 P l k → x ∈ l → ∃ y, y ∈ k ∧ P x y.
Proof.
  induction 1 as [|x' y l k Hxy _ IH]; [by intros ?%elem_of_nil|].
  intros [->|Hx]%elem_of_cons.
  - exists y. split; [left | done].
  - destruct (IH Hx) as (y' & ? & ?). exists y'. split; [by right | done].
Qed.

Section derived_rules.
Variable self : Store.
Variables minimum_confidence minimum_lift : Q.
Implicit Types (frequent_item_sets pool : list FrequentSet) (a b : FrequentSet).

(** What one turn of the pair loop did when it did not raise. *)
Lemma rule_of_pair_Ret a b found :
  rule_of_pair self minimum_confidence minimum_lift (a, b) = Ret found →
  (size (items a ∩ items b) ≠ 0 ∧ found = None) ∨
  (size (items a ∩ items b) = 0 ∧
   ∃ support_a_union_b relative,
     __support_value self (items a ∪ items b) = Ret (support_a_union_b, relative) ∧
     ¬ (Qnat (support a) == 0)%Q ∧
     ¬ (Qnat (support a) * relative_support b == 0)%Q ∧
     found =
     let rule_support := (Qnat support_a_union_b / Qnat (support a))%Q in
     let lift := (Qnat support_a_union_b / (Qnat (support a) * relative_support b))%Q in
     if Qle_bool minimum_confidence rule_support && Qle_bool minimum_lift lift
     then Some (mkAssociationRule (items a) (items b) rule_support lift)
     else None).
Proof.
  unfold rule_of_pair. case_bool_decide as Hdisj; [|intros [= <-]; by left].
  intros H. right. split; [done|].
  apply bind_Ret in H as ([sab rab] & Hsv & H).
  apply bind_Ret in H as (rule_support & [Hza ->]%py_div_Ret & H).
  apply bind_Ret in H as (lift & [Hzb ->]%py_div_Ret & H).
  exists sab, rab. split_and!; [done..|]. simpl.
  destruct (_ && _); by injection H as <-.
Qed.

Lemma pool_entry frequent_item_sets pool (T : gset string) :
  global_item_subsets_support self frequent_item_sets = Ret pool →
  is_fragment frequent_item_sets T ↔ ∃ a, a ∈ pool ∧ items a = T.
Proof.
  intros (_ & Hin & _)%global_item_subsets_support_Ret.
  unfold is_fragment. rewrite <- elem_of_set_attempts, <- Hin, list_elem_of_fmap.
  naive_solver.
Qed.

Lemma global_pairs_NoDup pool :
  NoDup (map items pool) →
  NoDup (map (λ pair, (items pair.1, items pair.2)) (global_pairs pool)).
Proof.
  intros Hnd.
  assert (NoDup (enumerate pool)) as Hnd_enum.
  { unfold enumerate. apply NoDup_zip_l, NoDup_seq. }
  assert (∀ p q : nat * FrequentSet,
            p ∈ enumerate pool → q ∈ enumerate pool → items p.2 = items q.2 → p = q)
    as Hinj.
  { intros [i a] [j b] Hp%elem_of_enumerate Hq%elem_of_enumerate Heq. simpl in *.
    assert (i = j) as ->; [|congruence].
    eapply NoDup_lookup; [exact Hnd | by rewrite list_lookup_fmap, Hp |].
    by rewrite list_lookup_fmap, Hq, Heq. }
  apply NoDup_fmap_2_strong.
  - intros [a b] [a' b'] (i & j & _ & Hi & Hj)%elem_of_global_pairs
      (i' & j' & _ & Hi' & Hj')%elem_of_global_pairs [= Ha Hb]. simpl in *.
    assert ((i, a) = (i', a')) as [= _ ->]
      by (apply Hinj; [by apply elem_of_enumerate..|done]).
    assert ((j, b) = (j', b')) as [= _ ->]
      by (apply Hinj; [by apply elem_of_enumerate..|done]).
    done.
  - assert (∀ (p q : nat * FrequentSet) a b,
              (a, b) ∈ (if bool_decide (p.1 ≠ q.1) then [(p.2, q.2)] else []) →
              a = p.2 ∧ b = q.2) as Hbody.
    { intros p q a b Hin. case_bool_decide; [|by apply elem_of_nil in Hin].
      by apply list_elem_of_singleton in Hin as [= -> ->]. }
    unfold global_pairs. apply NoDup_bind; [| |done].
    + intros p p' [a b] Hp Hp' (q & [Ha _]%Hbody & _)%list_elem_of_bind
        (q' & [Ha' _]%Hbody & _)%list_elem_of_bind.
      apply Hinj; [done..|congruence].
    + intros p Hp. apply NoDup_bind; [| |done].
      * intros q q' [a b] Hq Hq' [_ Hb]%Hbody [_ Hb']%Hbody.
        apply Hinj; [done..|congruence].
      * intros q _. case_bool_decide; [apply NoDup_singleton | constructor].
Qed.
End derived_rules.

(** X12. The rules returned are exactly the ordered pairs of disjoint input
    fragments that pass both thresholds: a rule is returned iff its condition
    and its consequence are fragments with no common item, its confidence is
    support(condition ∪ consequence) / support(condition), its lift is that
    support divided by support(condition) × relative support(consequence),
    the supports being those of the support query, and the confidence and the
    lift reach [minimum_confidence] and [minimum_lift]. *)
Theorem association_rules_characterised (self : Store)
    (frequent_item_sets : list FrequentSet) (minimum_confidence minimum_lift : Q)
    (rules : list AssociationRule) (rule : AssociationRule) :
  association_rules self frequent_item_sets minimum_confidence minimum_lift = Ret rules →
  rule ∈ rules ↔
  is_fragment frequent_item_sets (condition rule) ∧
  is_fragment frequent_item_sets (consequence rule) ∧
  condition rule ∩ consequence rule = ∅ ∧
  ∃ sa ra sb rb sab rab,
    __support_value self (condition rule) = Ret (sa, ra) ∧
    __support_value self (consequence rule) = Ret (sb, rb) ∧
    __support_value self (condition rule ∪ consequence rule) = Ret (sab, rab) ∧
    confidence rule = (Qnat sab / Qnat sa)%Q ∧
    lift rule = (Qnat sab / (Qnat sa * rb))%Q ∧
    (minimum_confidence <= confidence rule)%Q ∧ (minimum_lift <= lift rule)%Q.
Proof.
  intros (pool & found & Hpool & Hfound & ->)%association_rules_Ret.
  rewrite !elem_of_sorted_reverse, list_elem_of_omap. unfold id.
  pose proof Hpool as (Hnd & _ & Hsv)%global_item_subsets_support_Ret.
  rewrite Forall_forall in Hsv. split.
  - intros (o & Ho & ->).
    destruct (Forall2_elem_of_r _ _ _ _ Hfound Ho) as ([a b] & Hin & Hrule).
    apply global_pairs_elem_of in Hin as [Ha Hb].
    apply rule_of_pair_Ret in Hrule
      as [[_ [=]]|(Hdisj & sab & rab & Hab & _ & _ & Hrule)].
    simpl in Hrule. destruct (_ && _) eqn:Hth; [|done]. injection Hrule as ->. simpl.
    apply andb_true_iff in Hth as [Hmc%Qle_bool_iff Hml%Qle_bool_iff].
    split_and!.
    + apply (pool_entry self _ pool); [done|]. by exists a.
    + apply (pool_entry self _ pool); [done|]. by exists b.
    + by apply size_empty_iff, leibniz_equiv in Hdisj.
    + exists (support a), (relative_support a), (support b), (relative_support b), sab, rab.
      split_and!; [by apply Hsv | by apply Hsv | done..].
  - intros (HA & HB & Hdisj & sa & ra & sb & rb & sab & rab & Hsa & Hsb & Hsab
            & Hconf & Hlift & Hmc & Hml).
    apply (pool_entry self _ pool _ Hpool) in HA as (a & Ha & HAeq), HB as (b & Hb & HBeq).
    apply list_elem_of_lookup_1 in Ha as Hi, Hb as Hj.
    destruct Hi as [i Hi], Hj as [j Hj].
    assert (i ≠ j) as Hij.
    { intros ->. assert (a = b) as -> by congruence.
      pose proof Hsa as (Hne & _)%support_value_Ret. apply Hne.
      rewrite <- HAeq in Hdisj |- *. rewrite <- HBeq in Hdisj. set_solver. }
    assert ((a, b) ∈ global_pairs pool) as Hin
      by (apply elem_of_global_pairs; by exists i, j).
    destruct (Forall2_elem_of_l _ _ _ _ Hfound Hin) as (o & Ho & Hrule).
    exists o. split; [done|].
    apply rule_of_pair_Ret in Hrule
      as [[Hsize _]|(_ & sab' & rab' & Hab & _ & _ & ->)].
    { exfalso. apply Hsize. rewrite HAeq, HBeq, Hdisj. apply size_empty. }
    pose proof (Hsv a Ha) as Hfa. pose proof (Hsv b Hb) as Hfb.
    rewrite HAeq, Hsa in Hfa. rewrite HBeq, Hsb in Hfb. rewrite HAeq, HBeq, Hsab in Hab.
    injection Hfa as Hsa' Hra'. injection Hfb as Hsb' Hrb'. injection Hab as <- <-.
    simpl. rewrite <- Hsa', <- Hrb', <- Hconf, <- Hlift.
    apply Qle_bool_iff in Hmc, Hml. rewrite Hmc, Hml. simpl.
    rewrite HAeq, HBeq. by destruct rule.
Qed.

Lemma association_rules_characterised_witness :
  let rules :=
    match association_rules scenario_1_store scenario_1_input (1#2) (1#20) with
    | Ret rules => rules
    | _ => []
    end in
  scenario_rule ∈ rules ↔
  is_fragment scenario_1_input (condition scenario_rule) ∧
  is_fragment scenario_1_input (consequence scenario_rule) ∧
  condition scenario_rule ∩ consequence scenario_rule = ∅ ∧
  ∃ sa ra sb rb sab rab,
    __support_value scenario_1_store (condition scenario_rule) = Ret (sa, ra) ∧
    __support_value scenario_1_store (consequence scenario_rule) = Ret (sb, rb) ∧
    __support_value scenario_1_store (condition scenario_rule ∪ consequence scenario_rule)
    = Ret (sab, rab) ∧
    confidence scenario_rule = (Qnat sab / Qnat sa)%Q ∧
    lift scenario_rule = (Qnat sab / (Qnat sa * rb))%Q ∧
    ((1#2) <= confidence scenario_rule)%Q ∧ ((1#20) <= lift scenario_rule)%Q.
Proof.
  intros rules.
  apply (association_rules_characterised scenario_1_store scenario_1_input (1#2) (1#20)
           rules scenario_rule).
  vm_compute. reflexivity.
Defined.

(** X14. No rule is returned twice: the returned rules have pairwise
    different (condition, consequence) pairs. *)
Theorem association_rules_NoDup (self : Store)
    (frequent_item_sets : list FrequentSet) (minimum_confidence minimum_lift : Q)
    (rules : list AssociationRule) :
  association_rules self frequent_item_sets minimum_confidence minimum_lift = Ret rules →
  NoDup (map (λ rule, (condition rule, consequence rule)) rules).
Proof.
  intros (pool & found & Hpool & Hfound & ->)%association_rules_Ret.
  pose proof Hpool as (Hnd & _ & _)%global_item_subsets_support_Ret.
  eapply NoDup_Permutation_proper.
  { apply fmap_Permutation. by rewrite !sorted_reverse_Permutation. }
  eapply sublist_NoDup; [exact (global_pairs_NoDup pool Hnd)|].
  clear Hnd Hpool. induction Hfound as [|[a b] o pairs found Hrule _ IH]; [constructor|].
  simpl. apply rule_of_pair_Ret in Hrule as [[_ ->]|(_ & sab & rab & _ & _ & _ & ->)]; simpl.
  - by apply sublist_cons.
  - destruct (_ && _); simpl; [by apply sublist_skip | by apply sublist_cons].
Qed.

Lemma association_rules_NoDup_witness :
  let rules :=
    match association_rules scenario_1_store scenario_1_input (1#2) (1#20) with
    | Ret rules => rules
    | _ => []
    end in
  NoDup (map (λ rule, (condition rule, consequence rule)) rules).
Proof.
  intros rules.
  apply (association_rules_NoDup scenario_1_store scenario_1_input (1#2) (1#20) rules).
  vm_compute. reflexivity.
Defined.

Section rules_outcome.
Variable self : Store.
Variables minimum_confidence minimum_lift : Q.
Implicit Types (frequent_item_sets pool : list FrequentSet).

Lemma maximum_cardinality_small frequent_item_sets :
  Forall (λ item_set, size (items item_set) ≤ 1) frequent_item_sets →
  maximum_cardinality frequent_item_sets ≤ 1.
Proof.
  unfold maximum_cardinality. intros Hall. case_bool_decide as Hlen; [|lia].
  clear Hlen. induction Hall as [|x l Hx _ IH]; simpl; lia.
Qed.

Lemma association_rules_small frequent_item_sets :
  Forall (λ item_set, size (items item_set) ≤ 1) frequent_item_sets →
  association_rules self frequent_item_sets minimum_confidence minimum_lift = Ret [].
Proof.
  intros Hsmall%maximum_cardinality_small. unfold association_rules, global_item_subsets_support.
  rewrite (bool_decide_eq_false_2 (1 < maximum_cardinality frequent_item_sets)) by lia.
  done.
Qed.

Lemma association_rules_zero_count frequent_item_sets item_set :
  item_set ∈ frequent_item_sets → 1 < size (items item_set) →
  _transaction_count self = 0 →
  association_rules self frequent_item_sets minimum_confidence minimum_lift
  = Raise ZeroDivisionError.
Proof.
  intros Hin Hsize Hcount.
  pose proof (maximum_cardinality_upper _ _ Hin) as Hmax.
  unfold association_rules, global_item_subsets_support.
  rewrite (bool_decide_eq_true_2 (1 < maximum_cardinality frequent_item_sets)) by lia.
  destruct (set_attempts frequent_item_sets) as [|T attempts] eqn:Hattempts.
  - exfalso. destruct (size_pos_elem_of (items item_set)) as [x Hx]; [lia|].
    assert (({[x]} : gset string) ∈ set_attempts frequent_item_sets) as Hx'.
    { apply elem_of_set_attempts. exists item_set.
      split_and!; [done | set_solver | rewrite size_singleton; lia..]. }
    rewrite Hattempts in Hx'. by apply elem_of_nil in Hx'.
  - assert (T ≠ ∅) as HT.
    { assert (T ∈ set_attempts frequent_item_sets)
        as (_ & _ & _ & Hsz & _)%elem_of_set_attempts by (rewrite Hattempts; left).
      intros ->. rewrite size_empty in Hsz. lia. }
    simpl. rewrite bool_decide_eq_true_2 by apply not_elem_of_empty.
    by rewrite (support_value_zero_count self T HT Hcount).
Qed.

Lemma association_rules_Ret_or_zero_division frequent_item_sets :
  (∃ rules,
     association_rules self frequent_item_sets minimum_confidence minimum_lift = Ret rules) ∨
  association_rules self frequent_item_sets minimum_confidence minimum_lift
  = Raise ZeroDivisionError.
Proof.
  destruct (decide (Forall (λ item_set, size (items item_set) ≤ 1) frequent_item_sets))
    as [Hsmall|Hbig].
  { left. exists []. by apply association_rules_small. }
  apply not_Forall_Exists in Hbig; [|apply _].
  apply Exists_exists in Hbig as (item_set & Hin & Hsize). simpl in Hsize.
  destruct (decide (_transaction_count self = 0)) as [Hzero|Hcount].
  { right. apply (association_rules_zero_count _ item_set); [done | lia | done]. }
  destruct (global_item_subsets_support_total self frequent_item_sets Hcount) as [pool Hpool].
  unfold association_rules. rewrite Hpool. simpl.
  destruct (mapM_outcome (rule_of_pair self minimum_confidence minimum_lift)
              (global_pairs pool) ZeroDivisionError) as [[found ->]| ->];
    [|left; by eexists | by right].
  apply Forall_forall. intros [a b] Hpair.
  destruct (pool_fragments _ _ _ _ _ Hpool Hpair) as [Ha Hb].
  destruct (rule_of_pair_cases self minimum_confidence minimum_lift a b Ha Hb)
    as [(_ & ->)|[(_ & _ & ->)|(_ & _ & _ & sab & _ & ->)]];
    [left; by eexists | by right | left].
  simpl. destruct (_ && _); by eexists.
Qed.
End rules_outcome.

(** X15. How [association_rules] ends, on any store and any input list.
    When no input itemset has more than one item (in particular on the empty
    list) it returns the empty list, without querying the store.  When some
    input itemset has two items or more and the store has no transaction, it
    raises [ZeroDivisionError].  In every case it returns a list or raises
    [ZeroDivisionError]; no other exception leaves it. *)
Theorem association_rules_outcome (self : Store) (frequent_item_sets : list FrequentSet)
    (minimum_confidence minimum_lift : Q) :
  (Forall (λ item_set, size (items item_set) ≤ 1) frequent_item_sets →
   association_rules self frequent_item_sets minimum_confidence minimum_lift = Ret []) ∧
  (Exists (λ item_set, 1 < size (items item_set)) frequent_item_sets →
   _transaction_count self = 0 →
   association_rules self frequent_item_sets minimum_confidence minimum_lift
   = Raise ZeroDivisionError) ∧
  ((∃ rules,
      association_rules self frequent_item_sets minimum_confidence minimum_lift = Ret rules) ∨
   association_rules self frequent_item_sets minimum_confidence minimum_lift
   = Raise ZeroDivisionError).
Proof.
  split_and!.
  - apply association_rules_small.
  - intros (item_set & Hin & Hsize)%Exists_exists.
    by apply (association_rules_zero_count _ _ _ _ item_set).
  - apply association_rules_Ret_or_zero_division.
Qed.

Lemma association_rules_outcome_witness :
  association_rules scenario_1_store [mkFrequentSet {["a"]} 3 (3#4)] (1#2) (1#20) = Ret [] ∧
  association_rules (mkStore ∅ 0) scenario_1_input (1#2) (1#20) = Raise ZeroDivisionError.
Proof.
  split.
  - apply (proj1 (association_rules_outcome scenario_1_store
                    [mkFrequentSet {["a"]} 3 (3#4)] (1#2) (1#20))).
    repeat constructor.
  - apply (proj1 (proj2 (association_rules_outcome (mkStore ∅ 0) scenario_1_input
                           (1#2) (1#20)))).
    + left. by vm_compute.
    + reflexivity.
Defined.

(** X16. [association_rules] reads only the itemsets of its input: the
    [support] and [relative_support] carried by the input objects play no
    part, two input lists with the same itemsets in the same order give the
    same outcome. *)
Theorem association_rules_ignores_input_supports (self : Store)
    (frequent_item_sets frequent_item_sets' : list FrequentSet)
    (minimum_confidence minimum_lift : Q) :
  map items frequent_item_sets = map items frequent_item_sets' →
  association_rules self frequent_item_sets minimum_confidence minimum_lift
  = association_rules self frequent_item_sets' minimum_confidence minimum_lift.
Proof.
  intros Heq.
  assert (length frequent_item_sets = length frequent_item_sets' ∧
          map (λ item_set, size (items item_set)) frequent_item_sets
          = map (λ item_set, size (items item_set)) frequent_item_sets' ∧
          ∀ body : gset string → list (gset string),
            frequent_item_sets ≫= (λ item_set, body (items item_set))
            = frequent_item_sets' ≫= (λ item_set, body (items item_set)))
    as (Hlen & Hsizes & Hbind).
  { revert frequent_item_sets' Heq.
    induction frequent_item_sets as [|x l IH]; intros [|x' l'] Heq'; try done.
    injection Heq' as Hx Hl. destruct (IH l' Hl) as (Hlen & Hsizes & Hbind).
    split_and!; [simpl; congruence | simpl; congruence |].
    intros body. by rewrite !bind_cons, (Hbind body), Hx. }
  assert (maximum_cardinality frequent_item_sets = maximum_cardinality frequent_item_sets')
    as Hmax by (unfold maximum_cardinality; by rewrite Hlen, Hsizes).
  assert (set_attempts frequent_item_sets = set_attempts frequent_item_sets') as Hattempts.
  { unfold set_attempts. rewrite <- Hmax.
    apply (Hbind (λ frequent_set,
             subset_index ← seq 1 (maximum_cardinality frequent_item_sets - 1);
             item_subset ← combinations (elements frequent_set) subset_index;
             [list_to_set item_subset])). }
  unfold association_rules, global_item_subsets_support. by rewrite Hmax, Hattempts.
Qed.

Lemma association_rules_ignores_input_supports_witness :
  association_rules scenario_1_store scenario_1_input (1#2) (1#20)
  = association_rules scenario_1_store
      [mkFrequentSet {["b"; "c"]} 0 0; mkFrequentSet {["a"; "b"]} 7 1] (1#2) (1#20).
Proof.
  apply (association_rules_ignores_input_supports scenario_1_store scenario_1_input
           [mkFrequentSet {["b"; "c"]} 0 0; mkFrequentSet {["a"; "b"]} 7 1] (1#2) (1#20)).
  reflexivity.
Defined.

(** ** Dependence on the store *)

Section store_extensionality.
Variables (self self' : Store).
Hypothesis Hcount : _transaction_count self = _transaction_count self'.
Hypothesis Hdom : dom (_transaction_index self) = dom (_transaction_index self').
Hypothesis Hsupport : ∀ candidate, __support_value self candidate = __support_value self' candidate.

Lemma current_iteration_frequent_sets_ext minimum_support is_relative_support candidates :
  current_iteration_frequent_sets self minimum_support is_relative_support candidates
  = current_iteration_frequent_sets self' minimum_support is_relative_support candidates.
Proof.
  induction candidates as [|c rest IH]; simpl; [done|]. by rewrite Hsupport, IH.
Qed.

Lemma while_next_iteration_ext fuel minimum_support is_relative_support iteration d :
  while_next_iteration fuel self minimum_support is_relative_support iteration d
  = while_next_iteration fuel self' minimum_support is_relative_support iteration d.
Proof.
  revert iteration d. induction fuel as [|fuel IH]; intros iteration d; simpl; [done|].
  destruct (dict_get d iteration) as [sets| |]; simpl; [|done..].
  rewrite current_iteration_frequent_sets_ext.
  destruct (current_iteration_frequent_sets self' _ _ _) as [current| |]; simpl; [|done..].
  by rewrite IH.
Qed.

Lemma get_frequent_item_sets_ext minimum_support is_relative_support prune :
  get_frequent_item_sets self minimum_support is_relative_support prune
  = get_frequent_item_sets self' minimum_support is_relative_support prune.
Proof.
  unfold get_frequent_item_sets, get_frequent_item_sets_fuel.
  assert (clamp_minimum_support self minimum_support is_relative_support
          = clamp_minimum_support self' minimum_support is_relative_support) as ->
    by (unfold clamp_minimum_support; by rewrite Hcount).
  destruct (clamp_minimum_support self' minimum_support is_relative_support)
    as [threshold| |]; [|done..].
  rewrite !bind_Ret_l. unfold initial_set, _get_all_items.
  by rewrite Hdom, while_next_iteration_ext.
Qed.

Lemma association_rules_ext frequent_item_sets minimum_confidence minimum_lift :
  association_rules self frequent_item_sets minimum_confidence minimum_lift
  = association_rules self' frequent_item_sets minimum_confidence minimum_lift.
Proof.
  unfold association_rules.
  assert (global_item_subsets_support self frequent_item_sets
          = global_item_subsets_support self' frequent_item_sets) as ->.
  { unfold global_item_subsets_support. case_bool_decide; [|done].
    assert (∀ attempts state,
              foldM (store_subset self) state attempts
              = foldM (store_subset self') state attempts) as ->; [|done].
    induction attempts as [|T attempts IH]; intros state; simpl; [done|].
    assert (store_subset self state T = store_subset self' state T) as ->.
    { unfold store_subset. destruct state. by rewrite Hsupport. }
    destruct (store_subset self' state T); simpl; [apply IH | done..]. }
  destruct (global_item_subsets_support self' frequent_item_sets) as [pool| |]; simpl; [|done..].
  assert (mapM (rule_of_pair self minimum_confidence minimum_lift) (global_pairs pool)
          = mapM (rule_of_pair self' minimum_confidence minimum_lift) (global_pairs pool))
    as ->; [|done].
  induction (global_pairs pool) as [|[a b] pairs IH]; simpl; [done|].
  rewrite IH. unfold rule_of_pair. by rewrite Hsupport.
Qed.
End store_extensionality.

Section reordered_transactions.
Variables (transactions transactions' : list (list string)) (self self' : Store).
Hypothesis Hinit : __init__ (Some transactions) = Ret self.
Hypothesis Hinit' : __init__ (Some transactions') = Ret self'.
Hypothesis Hsame :
  map (list_to_set (C:=gset string)) transactions
  ≡ₚ map (list_to_set (C:=gset string)) transactions'.

Lemma reordered_length : length transactions = length transactions'.
Proof.
  rewrite <- (length_fmap (list_to_set (C:=gset string)) transactions),
          <- (length_fmap (list_to_set (C:=gset string)) transactions').
  by apply Permutation_length.
Qed.

Lemma reordered_count : _transaction_count self = _transaction_count self'.
Proof.
  injection Hinit as <-. injection Hinit' as <-. simpl. apply reordered_length.
Qed.

Lemma constructed_dom (txs : list (list string)) (store : Store) (item : string) :
  __init__ (Some txs) = Ret store →
  item ∈ dom (_transaction_index store) ↔
  ∃ X : gset string, X ∈ map (list_to_set (C:=gset string)) txs ∧ item ∈ X.
Proof.
  intros [= <-]. unfold _index_transactions. simpl.
  rewrite dom_index_rows, dom_empty_L. setoid_rewrite list_elem_of_fmap. split.
  - intros [?%elem_of_empty|(tx & ? & ?)]; [done|].
    exists (list_to_set tx). split; [by exists tx | by apply elem_of_list_to_set].
  - intros (X & (tx & -> & ?) & ?%elem_of_list_to_set). right. by exists tx.
Qed.

Lemma reordered_dom : dom (_transaction_index self) = dom (_transaction_index self').
Proof.
  apply set_eq. intros item.
  rewrite (constructed_dom transactions self item Hinit),
          (constructed_dom transactions' self' item Hinit').
  by setoid_rewrite Hsame.
Qed.

Lemma length_filter_holding (candidate : gset string) (txs : list (list string)) :
  length (filter (λ transaction, candidate ⊆ list_to_set transaction) txs)
  = length (filter (λ X : gset string, candidate ⊆ X) (map list_to_set txs)).
Proof.
  induction txs as [|tx txs IH]; [done|]. simpl.
  destruct (decide (candidate ⊆ list_to_set tx)).
  - rewrite !filter_cons_True by done. simpl. by rewrite IH.
  - by rewrite !filter_cons_False.
Qed.

Lemma reordered_support candidate :
  __support_value self candidate = __support_value self' candidate.
Proof.
  destruct (decide (candidate = ∅)) as [->|Hne].
  { unfold __support_value. by rewrite elements_empty. }
  destruct (decide (transactions = [])) as [Hnil|Hsome].
  { assert (_transaction_count self = 0) as Hzero
      by (injection Hinit as <-; by rewrite Hnil).
    assert (_transaction_count self' = 0) as Hzero' by by rewrite <- reordered_count.
    by rewrite !support_value_zero_count. }
  assert (transactions' ≠ []) as Hsome'.
  { intros Hnil. apply Hsome. apply length_zero_iff_nil. rewrite reordered_length, Hnil. done. }
  rewrite (support_value_constructed transactions self Hinit candidate Hne Hsome),
          (support_value_constructed transactions' self' Hinit' candidate Hne Hsome').
  simpl. rewrite !length_filter_holding, reordered_length. by rewrite Hsame.
Qed.
End reordered_transactions.

(** X17. The order of the transactions, and the order and repetition of the
    items inside a transaction, do not matter to the miner: two stores built
    from transaction lists that hold the same sets of items, the same number
    of times each, give the same support for every candidate, and
    [get_frequent_item_sets] returns the same itemsets on both, or raises the
    same exception.  The returned lists are compared up to their order: the
    order among itemsets of equal support follows the iteration order of
    Python's sets, which the order of insertion may change. *)
Theorem transaction_order_irrelevant (transactions transactions' : list (list string))
    (self self' : Store) :
  __init__ (Some transactions) = Ret self →
  __init__ (Some transactions') = Ret self' →
  map (list_to_set (C:=gset string)) transactions
  ≡ₚ map (list_to_set (C:=gset string)) transactions' →
  (∀ candidate, __support_value self candidate = __support_value self' candidate) ∧
  ∀ minimum_support is_relative_support prune,
    same_outcome
      (get_frequent_item_sets self minimum_support is_relative_support prune)
      (get_frequent_item_sets self' minimum_support is_relative_support prune).
Proof.
  intros Hinit Hinit' Hsame. split.
  - by apply (reordered_support transactions transactions').
  - intros minimum_support is_relative_support prune.
    rewrite (get_frequent_item_sets_ext self self'
               (reordered_count transactions transactions' self self' Hinit Hinit' Hsame)
               (reordered_dom transactions transactions' self self' Hinit Hinit' Hsame)
               (reordered_support transactions transactions' self self' Hinit Hinit' Hsame)).
    destruct (get_frequent_item_sets self' _ _ _); simpl; done.
Qed.

Lemma transaction_order_irrelevant_witness :
  let self' := mkStore (_index_transactions scenario_1_reordered) 4 in
  (∀ candidate,
     __support_value scenario_1_store candidate = __support_value self' candidate) ∧
  ∀ minimum_support is_relative_support prune,
    same_outcome
      (get_frequent_item_sets scenario_1_store minimum_support is_relative_support prune)
      (get_frequent_item_sets self' minimum_support is_relative_support prune).
Proof.
  intros self'.
  apply (transaction_order_irrelevant scenario_1 scenario_1_reordered scenario_1_store self').
  - reflexivity.
  - reflexivity.
  - vm_compute. apply perm_swap.
Defined.

(** X18. The same holds of the rules: on two such stores [association_rules]
    has the same outcome for every input list and thresholds. *)
Theorem transaction_order_irrelevant_to_rules (transactions transactions' : list (list string))
    (self self' : Store) (frequent_item_sets : list FrequentSet)
    (minimum_confidence minimum_lift : Q) :
  __init__ (Some transactions) = Ret self →
  __init__ (Some transactions') = Ret self' →
  map (list_to_set (C:=gset string)) transactions
  ≡ₚ map (list_to_set (C:=gset string)) transactions' →
  association_rules self frequent_item_sets minimum_confidence minimum_lift
  = association_rules self' frequent_item_sets minimum_confidence minimum_lift.
Proof.
  intros Hinit Hinit' Hsame. apply association_rules_ext.
  by apply (reordered_support transactions transactions').
Qed.

Lemma transaction_order_irrelevant_to_rules_witness :
  association_rules scenario_1_store scenario_1_input (1#2) (1#20)
  = association_rules (mkStore (_index_transactions scenario_1_reordered) 4)
      scenario_1_input (1#2) (1#20).
Proof.
  apply (transaction_order_irrelevant_to_rules scenario_1 scenario_1_reordered
           scenario_1_store (mkStore (_index_transactions scenario_1_reordered) 4)
           scenario_1_input (1#2) (1#20)).
  - reflexivity.
  - reflexivity.
  - vm_compute. apply perm_swap.
Defined.

(** ** Pruning, once more *)

Section pruning_as_recursion.
Implicit Types (joined later : list FrequentSet).

Lemma filter_positions_unpruned joined (n : nat) (P : nat * FrequentSet → Prop)
    `{!∀ p, Decision (P p)} :
  (∀ i set1, joined !! i = Some set1 →
     P (n + i, set1) ↔ ¬ Exists (λ set2, items set1 ⊆ items set2) (drop (S i) joined)) →
  map snd (filter P (zip (seq n (length joined)) joined)) = unpruned joined.
Proof.
  revert n. induction joined as [|set1 later IH]; intros n HP; [done|]. simpl.
  assert (map snd (filter P (zip (seq (S n) (length later)) later)) = unpruned later) as Hlater.
  { apply IH. intros i set Hi. replace (S n + i) with (n + S i) by lia.
    by rewrite (HP (S i) set Hi). }
  pose proof (HP 0 set1 eq_refl) as Hhead. rewrite Nat.add_0_r in Hhead. simpl in Hhead.
  rewrite drop_0 in Hhead.
  destruct (decide (Exists (λ set2, items set1 ⊆ items set2) later)) as [Hex|Hno].
  - rewrite filter_cons_False by (rewrite Hhead; tauto). done.
  - rewrite filter_cons_True by (by rewrite Hhead). simpl. by rewrite Hlater.
Qed.

Lemma cleaned_frequent_sets_unpruned joined :
  cleaned_frequent_sets true joined = unpruned joined.
Proof.
  unfold cleaned_frequent_sets, enumerate. apply filter_positions_unpruned.
  intros i set1 Hi. cbn [fst Nat.add]. apply not_iff_compat. rewrite elem_of_pruned_sets.
  rewrite Exists_exists. split.
  - intros (set1' & j & set2 & Hij & Hi' & Hj & Hsub). exists set2.
    assert (set1' = set1) as -> by congruence. split; [|done].
    apply list_elem_of_lookup. exists (j - S i). rewrite lookup_drop. rewrite <- Hj.
    f_equal. lia.
  - intros (set2 & [k Hk]%list_elem_of_lookup & Hsub). rewrite lookup_drop in Hk.
    exists set1, (S i + k), set2. split_and!; [lia | done..].
Qed.

Lemma unpruned_sublist joined : unpruned joined `sublist_of` joined.
Proof.
  induction joined as [|set1 later IH]; simpl; [constructor|].
  destruct (decide _); [by apply sublist_cons | by apply sublist_skip].
Qed.

Lemma unpruned_idempotent joined : unpruned (unpruned joined) = unpruned joined.
Proof.
  induction joined as [|set1 later IH]; simpl; [done|].
  destruct (decide (Exists (λ set2, items set1 ⊆ items set2) later)) as [Hex|Hno]; [done|].
  simpl. rewrite IH.
  destruct (decide (Exists (λ set2, items set1 ⊆ items set2) (unpruned later)))
    as [Hex|_]; [|done].
  exfalso. apply Hno. apply Exists_exists in Hex as (set2 & Hin & Hsub).
  apply Exists_exists. exists set2. split; [|done].
  by eapply sublist_subseteq; [apply unpruned_sublist|].
Qed.
End pruning_as_recursion.

(** X19. Pruning is idempotent, on any list of objects: pruning what a first
    pruning has left removes nothing more. *)
Theorem pruning_idempotent (joined : list FrequentSet) :
  cleaned_frequent_sets true (cleaned_frequent_sets true joined)
  = cleaned_frequent_sets true joined.
Proof.
  rewrite !cleaned_frequent_sets_unpruned. apply unpruned_idempotent.
Qed.

(** X20. Pruning keeps the order of the survivors and depends on the order of
    the list: an object stays exactly when no object after it in the list has
    an itemset including its own.  An object is therefore never pruned for an
    object that comes before it, even one with the same itemset. *)
Theorem pruning_looks_forward (set1 : FrequentSet) (later : list FrequentSet) :
  cleaned_frequent_sets true [] = [] ∧
  cleaned_frequent_sets true (set1 :: later) =
  if decide (Exists (λ set2, items set1 ⊆ items set2) later)
  then cleaned_frequent_sets true later
  else set1 :: cleaned_frequent_sets true later.
Proof.
  by rewrite !cleaned_frequent_sets_unpruned.
Qed.
